(** * Block parser of src/blocks/api/parser.js

    A shallow embedding of [parseBlockAttributes], [getBlockAttributes],
    [createBlockWithFallback] and [parseWithGrammar], and the properties of
    the attribute merge, of type resolution with its single fallback retry,
    of suppression and of the assembled block list. *)

From Stdlib Require Import Ascii String.
From stdpp Require Import base option list gmap strings.

Set Default Proof Using "Type".

(** ** JavaScript strings

    A string is a sequence of code units; Rocq's [ascii] covers the code
    units below 256. [String.prototype.trim] strips WhiteSpace and
    LineTerminator code units from both ends; below 256 these are TAB, LF,
    VT, FF, CR, SPACE and NO-BREAK SPACE. *)

Definition isWhiteSpace (c : ascii) : bool :=
  let n := N_of_ascii c in
  bool_decide (n = 9 ∨ n = 10 ∨ n = 11 ∨ n = 12 ∨ n = 13 ∨ n = 32 ∨ n = 160)%N.

Fixpoint blank (s : string) : bool :=
  match s with
  | EmptyString => true
  | String c s' => isWhiteSpace c && blank s'
  end.

Fixpoint trimStart (s : string) : string :=
  match s with
  | EmptyString => EmptyString
  | String c s' => if isWhiteSpace c then trimStart s' else s
  end.

Fixpoint trimEnd (s : string) : string :=
  match s with
  | EmptyString => EmptyString
  | String c s' =>
      match trimEnd s' with
      | EmptyString => if isWhiteSpace c then EmptyString else String c EmptyString
      | t => String c t
      end
  end.

(** [s.trim()] *)
Definition trim (s : string) : string := trimEnd (trimStart s).

(** Truthiness of a string: only the empty string is falsy. *)
Definition truthy (s : string) : bool :=
  match s with
  | EmptyString => false
  | String _ _ => true
  end.

(** First and last code unit of a string, when it has one. *)
Definition first_unit (s : string) : option ascii :=
  match s with
  | EmptyString => None
  | String c _ => Some c
  end.

Fixpoint last_unit (s : string) : option ascii :=
  match s with
  | EmptyString => None
  | String c s' =>
      match last_unit s' with
      | None => Some c
      | Some d => Some d
      end
  end.

(** A value that is a string or [undefined] ([?String]): a block name, the
    name of the unknown type handler. [a || b] on such values. *)
Definition name_or (a b : option string) : option string :=
  match a with
  | Some s => if truthy s then Some s else b
  | None => b
  end.

(** ** Outcomes and the store

    A call either returns or throws. Attribute objects that are passed by
    reference live in a store; a reference is an index into it, a new
    object is put at the next free index and nothing is ever freed. *)

Inductive result (E A : Type) : Type :=
  | Ok (a : A)
  | Throw (e : E).
Arguments Ok {E A} a.
Arguments Throw {E A} e.

Global Instance result_ret {E} : MRet (result E) := λ A a, Ok a.
Global Instance result_bind {E} : MBind (result E) := λ A B f m,
  match m with
  | Ok a => f a
  | Throw e => Throw e
  end.

Definition loc := nat.

Section parser.
(** [V]: attribute values (the parser never inspects one); [Node]: the
    DOM node a matcher queries; [Block]: what [createBlock] returns;
    [exn]: what a callback may throw. *)
Context {V Node Block exn : Type}.

Local Abbreviation object := (gmap string V).
Local Abbreviation heap := (list (gmap string V)).

(** A computation over the store that may throw. *)
Definition M (A : Type) : Type := heap → result exn (A * heap).

Global Instance M_ret : MRet M := λ A a h, Ok (a, h).
Global Instance M_bind : MBind M := λ A B f m h,
  match m h with
  | Ok (a, h') => f a h'
  | Throw e => Throw e
  end.

(** A pure call that may throw, run inside [M]. *)
Definition call {A} (r : result exn A) : M A := λ h,
  match r with
  | Ok a => Ok (a, h)
  | Throw e => Throw e
  end.

(** An object literal: a fresh object holding [o]. *)
Definition new_object (o : object) : M loc := λ h, Ok (List.length h, h ++ [o]).

(** The own properties a spread [...x] copies: none for [undefined]. *)
Definition spread (x : option loc) : M object := λ h,
  Ok (default ∅ (x ≫= (h !!.)), h).

(** ** Data model *)

(** An entry of a block type's [attributes] object: a callable, carrying
    the internal flag or not. *)
Record Matcher : Type := {
  _wpBlocksKnownMatcher : bool;
  matcher_fn : Node → result exn V;
}.

(** [blockType.attributes]: missing, a function of the raw content, or an
    object of matchers, listed in the order of its keys. *)
Inductive AttributeSpec : Type :=
  | NoAttributes
  | Extractor (f : string → result exn object)
  | Matchers (ms : list (string * Matcher)).

Record BlockType : Type := {
  attributes : AttributeSpec;
  defaultAttributes : option object;
}.

(** A node of the grammar's output. *)
Record ParseNode : Type := {
  blockType : option string;
  rawContent : string;
  attrs : option loc;
}.

(** ./registration: the type registered under a name and the name of the
    unknown type handler, as a parse sees them. *)
Record Registry : Type := {
  getBlockType : option string → option BlockType;
  getUnknownTypeHandler : option string;
}.

(** ** External collaborators *)

(** The document body whose [innerHTML] is the given source (hpq). *)
Variable innerHTML : string → Node.
(** ./factory *)
Variable createBlock : option string → loc → M Block.
(** ./post.pegjs *)
Variable grammarParse : string → M (list ParseNode).

(** lodash [pickBy(object, '_wpBlocksKnownMatcher')]. *)
Definition pickBy (ms : list (string * Matcher)) : list (string * Matcher) :=
  filter (λ km, _wpBlocksKnownMatcher km.2 = true) ms.

(** hpq [parse(source, matchers)] on an object of callables:
    [Object.keys(matchers).reduce((memo, key) => { memo[key] =
    matchers[key](body); return memo }, {})]. *)
Fixpoint hpq_reduce (body : Node) (ms : list (string * Matcher))
    (memo : object) : result exn object :=
  match ms with
  | [] => Ok memo
  | (key, m) :: ms' =>
      v ← matcher_fn m body;
      hpq_reduce body ms' (<[key:=v]> memo)
  end.

Definition hpqParse (source : string) (ms : list (string * Matcher))
    : result exn object :=
  hpq_reduce (innerHTML source) ms ∅.

(** ** parser.js *)

(** The contents of the object [parseBlockAttributes] returns. *)
Definition parseBlockAttributes (rawContent : string) (blockType : BlockType)
    : result exn object :=
  match attributes blockType with
  | Extractor f => f rawContent
  | Matchers ms =>
      let knownMatchers := pickBy ms in
      hpqParse rawContent knownMatchers
  | NoAttributes => Ok ∅
  end.

Definition getBlockAttributes (blockType : option BlockType)
    (rawContent : string) (attributes : option loc) : M loc :=
  attrs ← match attributes with
          | Some l => mret l
          | None => new_object ∅
          end;
  match blockType with
  | Some ty =>
      a ← spread attributes;
      let d := default ∅ (defaultAttributes ty) in
      e ← call (parseBlockAttributes rawContent ty);
      new_object (e ∪ (d ∪ a))
  | None => mret attrs
  end.

(** Lines 73 to 81: the name and the type a node is resolved to. *)
Definition resolveBlockType (reg : Registry) (name : option string)
    : option string * option BlockType :=
  let blockName := name_or name (getUnknownTypeHandler reg) in
  let blockType := getBlockType reg blockName in
  let fallbackBlock := getUnknownTypeHandler reg in
  match blockType with
  | Some ty => (blockName, Some ty)
  | None => (fallbackBlock, getBlockType reg fallbackBlock)
  end.

(** The guard of line 85. *)
Definition included (reg : Registry) (name : option string)
    (rawContent : string) : bool :=
  let '(blockName, blockType) := resolveBlockType reg name in
  bool_decide (is_Some blockType)
  && (truthy (trim rawContent)
      || negb (bool_decide (blockName = getUnknownTypeHandler reg))).

Definition createBlockWithFallback (reg : Registry) (name : option string)
    (rawContent : string) (attributes : option loc) : M (option Block) :=
  let '(blockName, blockType) := resolveBlockType reg name in
  let fallbackBlock := getUnknownTypeHandler reg in
  match blockType with
  | Some ty =>
      if truthy (trim rawContent) || negb (bool_decide (blockName = fallbackBlock))
      then
        a ← getBlockAttributes (Some ty) (trim rawContent) attributes;
        block ← createBlock blockName a;
        mret (Some block)
      else mret None
  | None => mret None
  end.

(** [array.reduce(f, memo)] with a callback in [M]. *)
Fixpoint reduce {A B} (f : B → A → M B) (l : list A) (memo : B) : M B :=
  match l with
  | [] => mret memo
  | x :: l' => memo' ← f memo x; reduce f l' memo'
  end.

Definition parseWithGrammar (reg : Registry) (content : string)
    : M (list Block) :=
  nodes ← grammarParse content;
  reduce (λ memo blockNode,
    block ← createBlockWithFallback reg (blockType blockNode)
               (rawContent blockNode) (attrs blockNode);
    match block with
    | Some b => mret (memo ++ [b])
    | None => mret memo
    end) nodes [].

(** ** The assembler as the specification words it

    "A straight map-and-filter over the parser's output": every node is
    mapped, in order, to the block or the null it yields, and the nulls
    are then dropped. [parseWithGrammar] is compared with it below. *)
Fixpoint mapM {A B} (f : A → M B) (l : list A) : M (list B) :=
  match l with
  | [] => mret []
  | x :: l' => y ← f x; ys ← mapM f l'; mret (y :: ys)
  end.

Definition mapAndFilter (reg : Registry) (nodes : list ParseNode)
    : M (list Block) :=
  blocks ← mapM (λ blockNode,
              createBlockWithFallback reg (blockType blockNode)
                (rawContent blockNode) (attrs blockNode)) nodes;
  mret (omap id blocks).

(** The nodes that pass the guard of line 85. *)
Definition surviving (reg : Registry) (nodes : list ParseNode)
    : list ParseNode :=
  filter (λ n, included reg (blockType n) (rawContent n) = true) nodes.

(** [b] is what [createBlock] returned for node [n], called with the
    name the node resolves to and with the attributes resolved from its
    trimmed content. *)
Definition emitted (reg : Registry) (n : ParseNode) (b : Block) : Prop :=
  ∃ bn ty h0 a h1 h2,
    resolveBlockType reg (blockType n) = (bn, Some ty)
    ∧ getBlockAttributes (Some ty) (trim (rawContent n)) (attrs n) h0
      = Ok (a, h1)
    ∧ createBlock bn a h1 = Ok (b, h2).

End parser.

Arguments M : clear implicits.
Arguments Matcher : clear implicits.
Arguments AttributeSpec : clear implicits.
Arguments BlockType : clear implicits.
Arguments Registry : clear implicits.

(** ** A small instance

    Attribute values are numbers, a document body stands for its own
    source, an exception is its message, and a block records the name and
    the attributes object it was made with. *)

Definition sample_innerHTML (source : string) : string := source.

Definition sample_createBlock (name : option string) (a : loc)
    : M nat string (option string * loc) :=
  λ h, Ok ((name, a), h).

Definition text_type : BlockType nat string string :=
  {| attributes := Extractor (λ raw, Ok {[ "length" := String.length raw ]});
     defaultAttributes := Some {[ "align" := 0 ]} |}.

Definition freeform_type : BlockType nat string string :=
  {| attributes := NoAttributes; defaultAttributes := None |}.

Definition broken_type : BlockType nat string string :=
  {| attributes := Extractor (λ raw, Throw "unreadable content");
     defaultAttributes := None |}.

Definition size_matcher : Matcher nat string string :=
  {| _wpBlocksKnownMatcher := true;
     matcher_fn := λ body, Ok (String.length body) |}.

Definition plain_function : Matcher nat string string :=
  {| _wpBlocksKnownMatcher := false;
     matcher_fn := λ body, Throw "not a matcher" |}.

Definition broken_matcher : Matcher nat string string :=
  {| _wpBlocksKnownMatcher := true;
     matcher_fn := λ body, Throw "no such element" |}.

Definition sample_registry : Registry nat string string :=
  {| getBlockType := λ name,
       if decide (name = Some "core/text") then Some text_type
       else if decide (name = Some "core/freeform") then Some freeform_type
       else if decide (name = Some "core/broken") then Some broken_type
       else None;
     getUnknownTypeHandler := Some "core/freeform" |}.

(** The same without the broken type. *)
Definition small_registry : Registry nat string string :=
  {| getBlockType := λ name,
       if decide (name = Some "core/text") then Some text_type
       else if decide (name = Some "core/freeform") then Some freeform_type
       else None;
     getUnknownTypeHandler := Some "core/freeform" |}.

(** A registry whose unknown type handler is not registered. *)
Definition bare_registry : Registry nat string string :=
  {| getBlockType := λ name,
       if decide (name = Some "core/text") then Some text_type else None;
     getUnknownTypeHandler := Some "core/freeform" |}.

(** A grammar that reads a document as one freeform span, with a new
    empty [attrs] object. *)
Definition freeform_grammar (content : string)
    : M nat string (list ParseNode) :=
  λ h, Ok ([{| blockType := None; rawContent := content;
               attrs := Some (List.length h) |}], h ++ [∅]).

(** A grammar that rejects every document. *)
Definition failing_grammar (content : string)
    : M nat string (list ParseNode) :=
  λ h, Throw "syntax error".

(** A text section and the whitespace after it; a section of a type
    whose extractor throws; a grammar with a fixed output. *)
Definition sample_nodes : list ParseNode :=
  [ {| blockType := Some "core/text"; rawContent := " hello ";
       attrs := Some 0 |};
    {| blockType := None; rawContent := "  "; attrs := None |} ].

Definition broken_node : ParseNode :=
  {| blockType := Some "core/broken"; rawContent := "x"; attrs := None |}.

Definition fixed_grammar (nodes : list ParseNode) (content : string)
    : M nat string (list ParseNode) :=
  λ h, Ok (nodes, h).

(** A [createBlock] that rejects every block. *)
Definition failing_createBlock (name : option string) (a : loc)
    : M nat string (option string * loc) :=
  λ h, Throw "invalid block".

(** ** Properties of [trim] *)

Lemma trimStart_split (s : string) :
  ∃ l, s = l +:+ trimStart s ∧ blank l = true.
Proof.
  induction s as [|c s [l [Hs Hl]]]; simpl.
  - by exists EmptyString.
  - destruct (isWhiteSpace c) eqn:Hc.
    + exists (String c l). simpl. rewrite Hc, Hl.
      split; [exact (f_equal (String c) Hs) | done].
    + by exists EmptyString.
Qed.

Lemma trimStart_first (s : string) (c : ascii) :
  first_unit (trimStart s) = Some c → isWhiteSpace c = false.
Proof.
  induction s as [|d s IH]; simpl; [done|].
  destruct (isWhiteSpace d) eqn:Hd; [done|].
  simpl. by intros [= <-].
Qed.

Lemma trimEnd_split (s : string) :
  ∃ r, s = trimEnd s +:+ r ∧ blank r = true.
Proof.
  induction s as [|c s [r [Hs Hr]]]; simpl.
  - by exists EmptyString.
  - destruct (trimEnd s) as [|d t] eqn:Ht.
    + destruct (isWhiteSpace c) eqn:Hc.
      * exists (String c r). simpl. rewrite Hc, Hr.
        split; [exact (f_equal (String c) Hs) | done].
      * exists r. split; [exact (f_equal (String c) Hs) | done].
    + exists r. split; [exact (f_equal (String c) Hs) | done].
Qed.

Lemma trimEnd_last (s : string) (c : ascii) :
  last_unit (trimEnd s) = Some c → isWhiteSpace c = false.
Proof.
  induction s as [|d s IH]; simpl; [done|].
  destruct (trimEnd s) as [|e t] eqn:Ht.
  - destruct (isWhiteSpace d) eqn:Hd; simpl; [done|]. by intros [= <-].
  - change (last_unit (String d (String e t)))
      with (match last_unit (String e t) with None => Some d | Some x => Some x end).
    destruct (last_unit (String e t)) eqn:Hl.
    + intros [= <-]. by apply IH.
    + simpl in Hl. by destruct (last_unit t).
Qed.

Lemma trimEnd_first (s : string) (c : ascii) :
  first_unit (trimEnd s) = Some c → first_unit s = Some c.
Proof.
  destruct s as [|d s]; simpl; [done|].
  destruct (trimEnd s); [destruct (isWhiteSpace d)|]; by simpl.
Qed.

Lemma trimEnd_blank (s : string) : blank s = true → trimEnd s = EmptyString.
Proof.
  induction s as [|c s IH]; simpl; [done|].
  intros [Hc Hs]%andb_prop. by rewrite IH, Hc.
Qed.

Lemma trimStart_blank (s : string) : blank s = true → trimStart s = EmptyString.
Proof.
  induction s as [|c s IH]; simpl; [done|].
  intros [Hc Hs]%andb_prop. rewrite Hc. auto.
Qed.

Lemma blank_app (l r : string) :
  blank (l +:+ r) = blank l && blank r.
Proof.
  induction l as [|c l IH]; [done|].
  change (blank (String c (l +:+ r)) = blank (String c l) && blank r).
  simpl. by rewrite IH, andb_assoc.
Qed.

Lemma trim_split (s : string) :
  ∃ l r, s = l +:+ trim s +:+ r ∧ blank l = true ∧ blank r = true.
Proof.
  destruct (trimStart_split s) as [l [Hs Hl]].
  destruct (trimEnd_split (trimStart s)) as [r [Ht Hr]].
  exists l, r. unfold trim. by rewrite <- Ht.
Qed.

Lemma trim_blank (s : string) : trim s = EmptyString ↔ blank s = true.
Proof.
  split.
  - intros Ht. destruct (trim_split s) as (l & r & Hs & Hl & Hr).
    rewrite Hs, Ht, !blank_app. simpl. by rewrite Hl, Hr.
  - intros Hb. unfold trim. by rewrite trimStart_blank.
Qed.

Lemma trim_first (s : string) (c : ascii) :
  first_unit (trim s) = Some c → isWhiteSpace c = false.
Proof. intros H%trimEnd_first. by eapply trimStart_first. Qed.

Lemma trim_last (s : string) (c : ascii) :
  last_unit (trim s) = Some c → isWhiteSpace c = false.
Proof. apply trimEnd_last. Qed.

Lemma truthy_false (s : string) : truthy s = false ↔ s = EmptyString.
Proof. by destruct s. Qed.

(** *** Padding and repeated trimming *)

Lemma trimStart_app_blank (l x : string) :
  blank l = true → trimStart (l +:+ x) = trimStart x.
Proof.
  induction l as [|c l IH]; [done|].
  change (String c l +:+ x) with (String c (l +:+ x)). simpl.
  intros [Hc Hl]%andb_prop. rewrite Hc. auto.
Qed.

Lemma trimStart_app (s r : string) :
  trimStart (s +:+ r) = if blank s then trimStart r else trimStart s +:+ r.
Proof.
  induction s as [|c s IH]; [done|].
  change (String c s +:+ r) with (String c (s +:+ r)). simpl.
  destruct (isWhiteSpace c); simpl; [done|reflexivity].
Qed.

Lemma trimEnd_app_blank (x r : string) :
  blank r = true → trimEnd (x +:+ r) = trimEnd x.
Proof.
  intros Hr. induction x as [|c x IH].
  - by apply trimEnd_blank.
  - change (String c x +:+ r) with (String c (x +:+ r)). simpl.
    by rewrite IH.
Qed.

Lemma trim_pad (l s r : string) :
  blank l = true → blank r = true → trim (l +:+ s +:+ r) = trim s.
Proof.
  intros Hl Hr. unfold trim.
  rewrite trimStart_app_blank by done. rewrite trimStart_app.
  destruct (blank s) eqn:Hs.
  - by rewrite !trimStart_blank.
  - by apply trimEnd_app_blank.
Qed.

Lemma trimEnd_idem (s : string) : trimEnd (trimEnd s) = trimEnd s.
Proof.
  induction s as [|c s IH]; [done|]. simpl.
  destruct (trimEnd s) as [|d t] eqn:Ht.
  - destruct (isWhiteSpace c) eqn:Hc; [done|]. simpl. by rewrite Hc.
  - change (trimEnd (String c (String d t)))
      with (match trimEnd (String d t) with
            | EmptyString =>
                if isWhiteSpace c then EmptyString else String c EmptyString
            | String e u => String c (String e u)
            end).
    by rewrite IH.
Qed.

Lemma trimStart_fixed (s : string) :
  (∀ c, first_unit s = Some c → isWhiteSpace c = false) → trimStart s = s.
Proof.
  destruct s as [|c s]; [done|]. simpl. intros Hc. by rewrite (Hc c).
Qed.

Lemma trim_idem (s : string) : trim (trim s) = trim s.
Proof.
  unfold trim at 1. rewrite trimStart_fixed by apply trim_first.
  apply trimEnd_idem.
Qed.

(** ** Properties of the matcher reduction *)

Section matchers.
Context {V Node exn : Type}.
Implicit Types (ms pre post : list (string * Matcher V Node exn)).
Implicit Types (memo e : gmap string V).

Lemma hpq_reduce_dom (body : Node) ms memo e :
  hpq_reduce body ms memo = Ok e →
  ∀ k, is_Some (e !! k) ↔ is_Some (memo !! k) ∨ k ∈ ms.*1.
Proof.
  revert memo. induction ms as [|[k' m] ms IH]; intros memo; simpl.
  - intros [= <-] k. rewrite elem_of_nil. tauto.
  - unfold mbind, result_bind.
    destruct (matcher_fn m body) as [v|x]; [|done].
    intros He k. rewrite (IH _ He k), elem_of_cons. simpl.
    destruct (decide (k' = k)) as [->|Hne].
    + rewrite lookup_insert_eq. split.
      * intros _. right. by left.
      * intros _. left. by eexists.
    + rewrite lookup_insert_ne by done. split.
      * intros [Hx|Hx]; [by left|right; by right].
      * intros [Hx|[Hx|Hx]]; [by left|by subst|by right].
Qed.

Lemma hpq_reduce_lookup (body : Node) ms memo e k m :
  hpq_reduce body ms memo = Ok e → NoDup ms.*1 → (k, m) ∈ ms →
  ∃ v, matcher_fn m body = Ok v ∧ e !! k = Some v.
Proof.
  revert memo. induction ms as [|[k' m'] ms IH]; intros memo; simpl.
  - by intros _ _ ?%elem_of_nil.
  - unfold mbind, result_bind.
    destruct (matcher_fn m' body) as [v|x] eqn:Hv; [|done].
    intros He [Hk' Hnd]%NoDup_cons [[= -> ->]|Hin]%elem_of_cons.
    + exists v. split; [done|]. clear IH Hv.
      revert memo He. induction ms as [|[k2 m2] ms IH]; intros memo; simpl.
      * intros [= <-]. by rewrite lookup_insert_eq.
      * unfold mbind, result_bind.
        destruct (matcher_fn m2 body) as [v2|x]; [|done].
        simpl in Hk', Hnd. apply not_elem_of_cons in Hk' as [Hne Hk'].
        apply NoDup_cons in Hnd as [_ Hnd].
        rewrite insert_insert_ne by done. by apply IH.
    + by apply (IH _ He).
Qed.

Lemma hpq_reduce_returns (body : Node) ms memo :
  (∀ k m, (k, m) ∈ ms → ∃ v, matcher_fn m body = Ok v) →
  ∃ e, hpq_reduce body ms memo = Ok e.
Proof.
  revert memo. induction ms as [|[k m] ms IH]; intros memo Hall; simpl.
  - by eexists.
  - destruct (Hall k m) as [v Hv]; [by left|].
    unfold mbind, result_bind. rewrite Hv. apply IH.
    intros k' m' Hin. apply (Hall k'). by apply list_elem_of_further.
Qed.

Lemma hpq_reduce_throws (body : Node) pre k m post memo x :
  (∀ k' m', (k', m') ∈ pre → ∃ v, matcher_fn m' body = Ok v) →
  matcher_fn m body = Throw x →
  hpq_reduce body (pre ++ (k, m) :: post) memo = Throw x.
Proof.
  revert memo. induction pre as [|[k' m'] pre IH]; intros memo Hall Hx; simpl.
  - unfold mbind, result_bind. by rewrite Hx.
  - destruct (Hall k' m') as [v Hv]; [by left|].
    unfold mbind, result_bind. rewrite Hv. apply IH; [|done].
    intros k2 m2 Hin. apply (Hall k2). by apply list_elem_of_further.
Qed.

Lemma elem_of_pickBy ms k m :
  (k, m) ∈ pickBy ms ↔ (k, m) ∈ ms ∧ _wpBlocksKnownMatcher m = true.
Proof. unfold pickBy. rewrite list_elem_of_filter. simpl. tauto. Qed.
End matchers.

(** ** Properties of the parser *)

Section properties.
Context {V Node Block exn : Type}.
Variable innerHTML : string → Node.
Variable createBlock : option string → loc → M V exn Block.
Variable grammarParse : string → M V exn (list ParseNode).

Local Abbreviation object := (gmap string V).
Local Abbreviation heap := (list (gmap string V)).
Implicit Types (h : heap) (ty : BlockType V Node exn) (reg : Registry V Node exn).
Implicit Types (raw content : string) (name : option string).
Implicit Types (attributes : option loc).
Implicit Types (ms : list (string * Matcher V Node exn)).

(** With a type, the call returns exactly when the extraction does, and
    then allocates the merged object at the end of the store. *)
Lemma getBlockAttributes_present ty raw attributes h :
  getBlockAttributes innerHTML (Some ty) raw attributes h =
    match parseBlockAttributes innerHTML raw ty with
    | Ok e =>
        let h0 := match attributes with Some _ => h | None => h ++ [∅] end in
        Ok (List.length h0,
            h0 ++ [e ∪ (default ∅ (defaultAttributes ty)
                        ∪ default ∅ (attributes ≫= (h !!.)))])
    | Throw x => Throw x
    end.
Proof.
  unfold getBlockAttributes, mbind, mret, M_bind, M_ret, call, spread, new_object.
  destruct attributes as [l|]; simpl;
    by destruct (parseBlockAttributes innerHTML raw ty).
Qed.

Lemma getBlockAttributes_missing raw attributes h :
  getBlockAttributes (exn:=exn) innerHTML None raw attributes h =
    match attributes with
    | Some l => Ok (l, h)
    | None => Ok (List.length h, h ++ [∅])
    end.
Proof. by destruct attributes. Qed.

Lemma lookup_snoc_new {A} (l : list A) (x : A) : (l ++ [x]) !! List.length l = Some x.
Proof. by rewrite lookup_app_r, Nat.sub_diag. Qed.

(** The guard of line 85 in terms of the resolved name and type. *)
Lemma included_spec reg name raw :
  included reg name raw = true ↔
    is_Some (resolveBlockType reg name).2
    ∧ (trim raw ≠ EmptyString
       ∨ (resolveBlockType reg name).1 ≠ getUnknownTypeHandler reg).
Proof.
  unfold included. destruct (resolveBlockType reg name) as [bn bt]. simpl.
  rewrite andb_true_iff, orb_true_iff, negb_true_iff.
  rewrite bool_decide_eq_true, bool_decide_eq_false.
  assert (truthy (trim raw) = true ↔ trim raw ≠ EmptyString) as ->; [|done].
  destruct (trim raw); simpl; split; done.
Qed.

Lemma createBlockWithFallback_skip reg name raw attributes h :
  included reg name raw = false →
  createBlockWithFallback innerHTML createBlock reg name raw attributes h
    = Ok (None, h).
Proof.
  unfold included, createBlockWithFallback.
  destruct (resolveBlockType reg name) as [bn [ty|]]; [|done].
  rewrite bool_decide_true by eauto. simpl. by intros ->.
Qed.

Lemma createBlockWithFallback_keep reg name raw attributes h :
  included reg name raw = true →
  ∃ ty, (resolveBlockType reg name).2 = Some ty ∧
    createBlockWithFallback innerHTML createBlock reg name raw attributes h
    = match getBlockAttributes innerHTML (Some ty) (trim raw) attributes h with
      | Ok (a, h1) =>
          match createBlock (resolveBlockType reg name).1 a h1 with
          | Ok (b, h2) => Ok (Some b, h2)
          | Throw x => Throw x
          end
      | Throw x => Throw x
      end.
Proof.
  unfold included, createBlockWithFallback.
  destruct (resolveBlockType reg name) as [bn [ty|]].
  - rewrite bool_decide_true by eauto. simpl. intros ->.
    exists ty. split; [done|].
    unfold mbind, M_bind, mret, M_ret.
    destruct (getBlockAttributes _ _ _ _ h) as [[a h1]|x]; [|done].
    by destruct (createBlock bn a h1) as [[b h2]|x].
  - by rewrite bool_decide_false by (by intros [? ?]).
Qed.

(** The type a name is resolved to is the registered type of the name
    it is resolved to. *)
Lemma resolveBlockType_registered reg name bn ty :
  resolveBlockType reg name = (bn, Some ty) → getBlockType reg bn = Some ty.
Proof.
  unfold resolveBlockType.
  destruct (getBlockType reg (name_or name _)) as [ty'|] eqn:Hty.
  - by intros [= <- <-].
  - by intros [= <- ->].
Qed.

Lemma createBlockWithFallback_Some reg name raw attributes h b h' :
  createBlockWithFallback innerHTML createBlock reg name raw attributes h
    = Ok (Some b, h') →
  included reg name raw = true
  ∧ ∃ bn ty a h1,
      resolveBlockType reg name = (bn, Some ty)
      ∧ getBlockAttributes innerHTML (Some ty) (trim raw) attributes h
        = Ok (a, h1)
      ∧ createBlock bn a h1 = Ok (b, h').
Proof.
  destruct (included reg name raw) eqn:Hi.
  - destruct (createBlockWithFallback_keep reg _ _ attributes h Hi)
      as (ty & Hty & ->).
    destruct (getBlockAttributes _ _ _ _ h) as [[a h1]|x] eqn:Ha; [|done].
    destruct (createBlock _ a h1) as [[b' h2]|x] eqn:Hb; [|done].
    intros [= <- <-]. split; [done|].
    exists (resolveBlockType reg name).1, ty, a, h1.
    split; [|done]. rewrite <- Hty. by destruct (resolveBlockType _ _).
  - by rewrite createBlockWithFallback_skip.
Qed.

Lemma createBlockWithFallback_None reg name raw attributes h h' :
  createBlockWithFallback innerHTML createBlock reg name raw attributes h
    = Ok (None, h') →
  included reg name raw = false ∧ h' = h.
Proof.
  destruct (included reg name raw) eqn:Hi.
  - destruct (createBlockWithFallback_keep reg _ _ attributes h Hi)
      as (ty & Hty & ->).
    destruct (getBlockAttributes _ _ _ _ h) as [[a h1]|x]; [|done].
    by destruct (createBlock _ a h1) as [[b' h2]|x].
  - rewrite createBlockWithFallback_skip by done. by intros [= <-].
Qed.

(** The reduction of [parseWithGrammar], from any accumulator. *)
Lemma reduce_mapAndFilter reg nodes (memo : list Block) h :
  reduce (λ memo blockNode,
    block ← createBlockWithFallback innerHTML createBlock reg
               (blockType blockNode) (rawContent blockNode) (attrs blockNode);
    match block with
    | Some b => mret (memo ++ [b])
    | None => mret memo
    end) nodes memo h
  = match mapAndFilter innerHTML createBlock reg nodes h with
    | Ok (bs, h') => Ok (memo ++ bs, h')
    | Throw x => Throw x
    end.
Proof.
  unfold mapAndFilter.
  revert memo h. induction nodes as [|n nodes IH]; intros memo h.
  - simpl. unfold mbind, M_bind, mret, M_ret. by rewrite app_nil_r.
  - simpl. unfold mbind, M_bind, mret, M_ret in *.
    destruct (createBlockWithFallback _ _ _ _ _ _ h) as [[[b|] h1]|x];
      [| |done].
    + rewrite IH. destruct (mapM _ nodes h1) as [[bs h2]|x]; [|done].
      simpl. by rewrite <- app_assoc.
    + rewrite IH. by destruct (mapM _ nodes h1) as [[bs h2]|x].
Qed.

Lemma parseWithGrammar_run reg content h :
  parseWithGrammar innerHTML createBlock grammarParse reg content h
  = match grammarParse content h with
    | Ok (nodes, h0) => mapAndFilter innerHTML createBlock reg nodes h0
    | Throw x => Throw x
    end.
Proof.
  unfold parseWithGrammar.
  change ((grammarParse content ≫= ?f) h)
    with (match grammarParse content h with
          | Ok (nodes, h0) => f nodes h0
          | Throw x => Throw x
          end).
  destruct (grammarParse content h) as [[nodes h0]|x]; [|done].
  rewrite reduce_mapAndFilter.
  by destruct (mapAndFilter _ _ _ _ _) as [[bs h1]|x].
Qed.

Lemma mapAndFilter_emitted reg nodes h bs h' :
  mapAndFilter innerHTML createBlock reg nodes h = Ok (bs, h') →
  Forall2 (emitted innerHTML createBlock reg) (surviving reg nodes) bs.
Proof.
  unfold mapAndFilter, surviving.
  revert h bs. induction nodes as [|n nodes IH]; intros h bs.
  - unfold mbind, M_bind, mret, M_ret. simpl. intros [= <- <-]. constructor.
  - simpl. unfold mbind, M_bind, mret, M_ret in *.
    destruct (createBlockWithFallback _ _ _ _ _ _ h) as [[[b|] h1]|x] eqn:Hc;
      [| |done].
    + apply createBlockWithFallback_Some
        in Hc as (Hi & bn & ty & a & h0 & Hr & Ha & Hb).
      destruct (mapM _ nodes h1) as [[ys h2]|x] eqn:Hm; [|done].
      intros [= <- <-]. rewrite filter_cons_True by done. simpl.
      constructor; [by exists bn, ty, h, a, h0, h1|].
      apply (IH h1). by rewrite Hm.
    + apply createBlockWithFallback_None in Hc as [Hi ->].
      destruct (mapM _ nodes h) as [[ys h2]|x] eqn:Hm; [|done].
      intros [= <- <-]. rewrite filter_cons_False by (by rewrite Hi). simpl.
      apply (IH h). by rewrite Hm.
Qed.

(** *** Matchers *)

(** C4. For a type whose [attributes] is an object of matchers, the
    entries without the flag have no part in the extraction: an object
    with one more such entry, whatever its callable does, extracts the
    same. When the extraction returns, its keys are exactly the keys of
    the flagged entries, each (keys being distinct) with the value its
    matcher returned on the document built from the raw content. It
    returns whenever every flagged matcher does. *)
Theorem parseBlockAttributes_known_matchers ms d raw :
  let ty := {| attributes := Matchers ms; defaultAttributes := d |} in
  (∀ pre k m post, ms = pre ++ (k, m) :: post →
     _wpBlocksKnownMatcher m = false →
     parseBlockAttributes innerHTML raw ty
     = parseBlockAttributes innerHTML raw
         {| attributes := Matchers (pre ++ post); defaultAttributes := d |})
  ∧ (∀ e, parseBlockAttributes innerHTML raw ty = Ok e →
       ∀ k, is_Some (e !! k)
            ↔ ∃ m, (k, m) ∈ ms ∧ _wpBlocksKnownMatcher m = true)
  ∧ (∀ e k m, parseBlockAttributes innerHTML raw ty = Ok e →
       NoDup ms.*1 → (k, m) ∈ ms → _wpBlocksKnownMatcher m = true →
       ∃ v, matcher_fn m (innerHTML raw) = Ok v ∧ e !! k = Some v)
  ∧ ((∀ k m, (k, m) ∈ ms → _wpBlocksKnownMatcher m = true →
        ∃ v, matcher_fn m (innerHTML raw) = Ok v) →
     ∃ e, parseBlockAttributes innerHTML raw ty = Ok e).
Proof.
  intros ty. unfold parseBlockAttributes, hpqParse. simpl.
  split; [|split; [|split]].
  - intros pre k m post -> Hm. unfold pickBy.
    rewrite !filter_app, filter_cons_False; [done|].
    simpl. by rewrite Hm.
  - intros e He k. rewrite (hpq_reduce_dom _ _ _ _ He k), lookup_empty.
    rewrite list_elem_of_fmap. split.
    + intros [[? [=]]|[[k' m] [-> Hin%elem_of_pickBy]]]. by exists m.
    + intros [m Hin%elem_of_pickBy]. right. by exists (k, m).
  - intros e k m He Hnd Hin Hm.
    apply (hpq_reduce_lookup _ _ _ _ _ _ He).
    + apply (sublist_NoDup _ ms.*1); [done|].
      apply fmap_sublist, sublist_filter.
    + by apply elem_of_pickBy.
  - intros Hall. apply hpq_reduce_returns.
    intros k m [Hin Hm]%elem_of_pickBy. by apply (Hall k).
Qed.

(** *** Attribute resolution *)

(** C1. With a block type, [getBlockAttributes] returns exactly when the
    extraction from the raw content returns, and the object it returns
    holds, for every key, the extracted value if there is one, else the
    default value if there is one, else the value from the delimiter
    attributes; an exception of the extraction is the call's. With
    defaults [{a: v1}], delimiter attributes [{a: v2, b: v3}] and an
    extractor returning [{a: v4}] the result is [{a: v4, b: v3}]. *)
Theorem getBlockAttributes_merge_precedence ty raw attributes h :
  let d := default ∅ (defaultAttributes ty) in
  let a := default ∅ (attributes ≫= (h !!.)) in
  (∀ e, parseBlockAttributes innerHTML raw ty = Ok e →
     ∃ r h' o,
       getBlockAttributes innerHTML (Some ty) raw attributes h = Ok (r, h')
       ∧ h' !! r = Some o
       ∧ ∀ k, o !! k = match e !! k with
                       | Some v => Some v
                       | None => match d !! k with
                                 | Some v => Some v
                                 | None => a !! k
                                 end
                       end)
  ∧ (∀ x, parseBlockAttributes innerHTML raw ty = Throw x →
       getBlockAttributes innerHTML (Some ty) raw attributes h = Throw x)
  ∧ (∀ (v1 v2 v3 v4 : V) l,
       h !! l = Some ({[ "a" := v2; "b" := v3 ]} : object) →
       ∃ r h',
         getBlockAttributes (exn:=exn) innerHTML
           (Some {| attributes := Extractor (λ _, Ok {[ "a" := v4 ]});
                    defaultAttributes := Some {[ "a" := v1 ]} |})
           raw (Some l) h = Ok (r, h')
         ∧ h' !! r = Some {[ "a" := v4; "b" := v3 ]}).
Proof.
  intros d a. split; [|split].
  - intros e He. rewrite getBlockAttributes_present, He. simpl.
    eexists _, _, _. split; [done|]. split; [apply lookup_snoc_new|].
    intros k. rewrite !lookup_union. fold d a.
    destruct (e !! k), (d !! k), (a !! k); done.
  - intros x Hx. by rewrite getBlockAttributes_present, Hx.
  - intros v1 v2 v3 v4 l Hl. rewrite getBlockAttributes_present. simpl.
    eexists _, _. split; [done|]. rewrite lookup_snoc_new, Hl. simpl.
    reflexivity.
Qed.

(** C5. Without a block type, [getBlockAttributes] returns the delimiter
    attributes themselves, the same object in an unchanged store; when
    they are absent too it returns a new empty object. The raw content
    and the document builder have no part in the result. *)
Theorem getBlockAttributes_without_type raw h l :
  getBlockAttributes (exn:=exn) innerHTML None raw (Some l) h = Ok (l, h)
  ∧ (∃ r h',
       getBlockAttributes (exn:=exn) innerHTML None raw None h = Ok (r, h')
       ∧ h' !! r = Some ∅ ∧ h !! r = None ∧ h `prefix_of` h')
  ∧ (∀ (dom : string → Node) raw' attributes,
       getBlockAttributes (exn:=exn) dom None raw' attributes h
       = getBlockAttributes innerHTML None raw attributes h).
Proof.
  split; [done|]. split.
  - eexists _, _. rewrite getBlockAttributes_missing.
    split; [done|]. split; [apply lookup_snoc_new|].
    split; [apply lookup_ge_None_2; lia|by eexists].
  - intros dom raw' attributes. by destruct attributes.
Qed.

(** C10. A call of [getBlockAttributes] that returns leaves every object
    of the store as it was, the delimiter attributes among them; with a
    block type the object it returns is new: it was not in the store
    before the call and is not the delimiter attributes object. *)
Theorem getBlockAttributes_frame (bt : option (BlockType V Node exn))
    raw attributes h r h' :
  getBlockAttributes innerHTML bt raw attributes h = Ok (r, h') →
  h `prefix_of` h'
  ∧ (∀ l o, h !! l = Some o → h' !! l = Some o)
  ∧ (is_Some bt →
       h !! r = None ∧ is_Some (h' !! r)
       ∧ ∀ l, attributes = Some l → is_Some (h !! l) → r ≠ l).
Proof.
  intros Hcall.
  assert (h `prefix_of` h' ∧ (is_Some bt → h !! r = None ∧ is_Some (h' !! r)))
    as [Hpre Hnew].
  { destruct bt as [ty|].
    - rewrite getBlockAttributes_present in Hcall.
      destruct (parseBlockAttributes innerHTML raw ty) as [e|x]; [|done].
      simpl in Hcall. injection Hcall as <- <-.
      destruct attributes as [l|].
      + split; [by eexists|]. intros _.
        split; [apply lookup_ge_None_2; lia|]. by rewrite lookup_snoc_new.
      + split; [rewrite <- app_assoc; by eexists|]. intros _.
        split; [apply lookup_ge_None_2; rewrite length_app; simpl; lia|].
        by rewrite lookup_snoc_new.
    - split; [|by intros [? ?]].
      rewrite getBlockAttributes_missing in Hcall.
      destruct attributes; injection Hcall as <- <-;
        [done|by eexists]. }
  split; [done|]. split.
  - intros l o Hl. by eapply prefix_lookup_Some.
  - intros Hbt. destruct (Hnew Hbt) as [Hr Hr']. split; [done|].
    split; [done|]. intros l _ [o Hl] ->. congruence.
Qed.

(** *** Type resolution and suppression *)

(** C3. The first name looked up is the declared name when it is a
    non-empty string and the name of the unknown type handler otherwise
    (an absent name, or the empty string, which is falsy). If a type is
    registered under it, that name and type are the resolution; if not,
    the handler's name is looked up and the resolution is that name with
    whatever is registered under it, nothing when the handler is itself
    unregistered. Only the lookups of these two names matter: registries
    that agree on them resolve alike. A declared, registered name is the
    resolved one and the one [createBlock] is called with. *)
Theorem resolveBlockType_single_retry reg name :
  let fallbackBlock := getUnknownTypeHandler reg in
  let first := name_or name fallbackBlock in
  (∀ s, name = Some s → s ≠ EmptyString → first = Some s)
  ∧ (name = None ∨ name = Some EmptyString → first = fallbackBlock)
  ∧ (∀ ty, getBlockType reg first = Some ty →
       resolveBlockType reg name = (first, Some ty))
  ∧ (getBlockType reg first = None →
       resolveBlockType reg name
       = (fallbackBlock, getBlockType reg fallbackBlock))
  ∧ (getBlockType reg first = None → getBlockType reg fallbackBlock = None →
       (resolveBlockType reg name).2 = None)
  ∧ (∀ reg',
       getUnknownTypeHandler reg' = fallbackBlock →
       getBlockType reg' first = getBlockType reg first →
       getBlockType reg' fallbackBlock = getBlockType reg fallbackBlock →
       resolveBlockType reg' name = resolveBlockType reg name)
  ∧ (∀ s ty, name = Some s → s ≠ EmptyString →
       getBlockType reg (Some s) = Some ty →
       resolveBlockType reg name = (Some s, Some ty)
       ∧ ∀ raw attributes h b h',
           createBlockWithFallback innerHTML createBlock reg name raw
             attributes h = Ok (Some b, h') →
           ∃ a h1, createBlock (Some s) a h1 = Ok (b, h')).
Proof.
  intros fallbackBlock first.
  assert (∀ s, name = Some s → s ≠ EmptyString → first = Some s) as Hfirst.
  { intros s -> Hs. unfold first. simpl. by destruct s. }
  split; [done|]. split.
  { unfold first. by intros [-> | ->]. }
  split.
  { intros ty Hty. unfold resolveBlockType. fold fallbackBlock first.
    by rewrite Hty. }
  split.
  { intros Hty. unfold resolveBlockType. fold fallbackBlock first.
    by rewrite Hty. }
  split.
  { intros Hty Hfb. unfold resolveBlockType. fold fallbackBlock first.
    by rewrite Hty. }
  split.
  { intros reg' Hh H1 H2. unfold resolveBlockType.
    rewrite Hh. fold fallbackBlock first. by rewrite H1, H2. }
  intros s ty Hname Hs Hty.
  assert (resolveBlockType reg name = (Some s, Some ty)) as Hres.
  { unfold resolveBlockType. fold fallbackBlock first.
    by rewrite (Hfirst s Hname Hs), Hty. }
  split; [done|].
  intros raw attributes h b h' Hcall.
  apply createBlockWithFallback_Some
    in Hcall as (_ & bn & ty' & a & h1 & Hr & _ & Hb).
  rewrite Hres in Hr. injection Hr as <- <-. by exists a, h1.
Qed.

(** C2. [createBlockWithFallback] returns null exactly when the node
    resolves to no type, or its trimmed content is empty and it resolves
    to the name of the unknown type handler; the store is then as it
    was. For any other node the call returns the block [createBlock]
    makes whenever the attribute resolution and [createBlock] return.
    So a document the grammar reads as freeform spans of whitespace gives
    the empty list, whatever is registered, and a section with blank
    content under a registered name other than the handler's gives the
    block made for that name. *)
Theorem createBlockWithFallback_null_iff reg name raw attributes h :
  let resolved := resolveBlockType reg name in
  ((∃ h', createBlockWithFallback innerHTML createBlock reg name raw
            attributes h = Ok (None, h'))
   ↔ resolved.2 = None
     ∨ (trim raw = EmptyString ∧ resolved.1 = getUnknownTypeHandler reg))
  ∧ (∀ h', createBlockWithFallback innerHTML createBlock reg name raw
             attributes h = Ok (None, h') → h' = h)
  ∧ (∀ ty a h1 b h2,
       resolved.2 = Some ty →
       trim raw ≠ EmptyString ∨ resolved.1 ≠ getUnknownTypeHandler reg →
       getBlockAttributes innerHTML (Some ty) (trim raw) attributes h
         = Ok (a, h1) →
       createBlock resolved.1 a h1 = Ok (b, h2) →
       createBlockWithFallback innerHTML createBlock reg name raw
         attributes h = Ok (Some b, h2))
  ∧ (∀ content nodes h0,
       grammarParse content h = Ok (nodes, h0) →
       Forall (λ n, blockType n = None ∧ blank (rawContent n) = true) nodes →
       parseWithGrammar innerHTML createBlock grammarParse reg content h
         = Ok ([], h0))
  ∧ (∀ s ty a h1 b h2,
       name = Some s → s ≠ EmptyString → blank raw = true →
       getBlockType reg (Some s) = Some ty →
       Some s ≠ getUnknownTypeHandler reg →
       getBlockAttributes innerHTML (Some ty) EmptyString attributes h
         = Ok (a, h1) →
       createBlock (Some s) a h1 = Ok (b, h2) →
       createBlockWithFallback innerHTML createBlock reg name raw
         attributes h = Ok (Some b, h2)).
Proof.
  intros resolved.
  assert (∀ ty a h1 b h2,
       resolved.2 = Some ty →
       trim raw ≠ EmptyString ∨ resolved.1 ≠ getUnknownTypeHandler reg →
       getBlockAttributes innerHTML (Some ty) (trim raw) attributes h
         = Ok (a, h1) →
       createBlock resolved.1 a h1 = Ok (b, h2) →
       createBlockWithFallback innerHTML createBlock reg name raw
         attributes h = Ok (Some b, h2)) as Hkeep.
  { intros ty a h1 b h2 Hty Hguard Ha Hb.
    assert (included reg name raw = true) as Hi.
    { apply included_spec. fold resolved. rewrite Hty. eauto. }
    destruct (createBlockWithFallback_keep reg _ _ attributes h Hi)
      as (ty' & Hty' & ->).
    fold resolved in Hty', Hb |- *. rewrite Hty in Hty'.
    injection Hty' as <-. by rewrite Ha, Hb. }
  split; [|split; [|split; [done|split]]].
  - split.
    + intros [h' [Hi _]%createBlockWithFallback_None].
      destruct (decide (resolved.2 = None)) as [?|Hsome]; [by left|right].
      destruct (decide (trim raw = EmptyString ∧
                        resolved.1 = getUnknownTypeHandler reg))
        as [?|Hno]; [done|].
      assert (included reg name raw = true) as Hi'; [|congruence].
      apply included_spec. fold resolved. split.
      * by destruct (resolved.2).
      * apply not_and_l in Hno. done.
    + intros Hsup. exists h. apply createBlockWithFallback_skip.
      apply not_true_is_false. intros [Hty Hguard]%included_spec.
      fold resolved in Hty, Hguard.
      destruct Hsup as [Hnone|[Hraw Hfb]].
      * rewrite Hnone in Hty. by destruct Hty.
      * by destruct Hguard.
  - by intros h' [_ ->]%createBlockWithFallback_None.
  - intros content nodes h0 Hg Hnodes.
    rewrite parseWithGrammar_run, Hg.
    unfold mapAndFilter, mbind, M_bind, mret, M_ret.
    assert (mapM (λ blockNode,
              createBlockWithFallback innerHTML createBlock reg
                (blockType blockNode) (rawContent blockNode) (attrs blockNode))
              nodes h0 = Ok (replicate (List.length nodes) None, h0)) as ->.
    { clear Hg. induction Hnodes as [|n nodes [Hn Hb] _ IH]; [done|].
      simpl. unfold mbind, M_bind, mret, M_ret.
      rewrite createBlockWithFallback_skip; [by rewrite IH|].
      apply not_true_is_false. intros [Hty Hguard]%included_spec.
      apply trim_blank in Hb. rewrite Hn in Hty, Hguard.
      unfold resolveBlockType in Hty, Hguard. simpl in Hty, Hguard.
      destruct (getBlockType reg (getUnknownTypeHandler reg));
        simpl in *; by destruct Hguard. }
    f_equal. f_equal. by induction (List.length nodes).
  - intros s ty a h1 b h2 -> Hs Hb Hty Hne Ha Hcb.
    apply trim_blank in Hb.
    assert (resolved = (Some s, Some ty)) as Hres.
    { unfold resolved, resolveBlockType. simpl.
      destruct s; [done|]. simpl. by rewrite Hty. }
    apply (Hkeep ty a h1 b h2); rewrite ?Hres, ?Hb; simpl; auto.
Qed.

(** *** The assembled list *)

Lemma mapM_throws_at {A B} (f : A → M V exn B) pre n post h ys h1 x :
  mapM f pre h = Ok (ys, h1) → f n h1 = Throw x →
  mapM f (pre ++ n :: post) h = Throw x.
Proof.
  revert h ys. induction pre as [|a pre IH]; intros h ys; simpl.
  - unfold mret, M_ret, mbind, M_bind. intros [= <- <-] Hx. by rewrite Hx.
  - unfold mret, M_ret, mbind, M_bind in *.
    destruct (f a h) as [[y h2]|e]; [|done].
    destruct (mapM f pre h2) as [[ys' h3]|e] eqn:Hpre; [|done].
    intros [= <- <-] Hx. by rewrite (IH h2 ys').
Qed.

Lemma mapM_throws_elem {A B} (f : A → M V exn B) nodes n h :
  n ∈ nodes → (∀ h1, ∃ x, f n h1 = Throw x) →
  ∃ x, mapM f nodes h = Throw x.
Proof.
  intros Hin Hn. revert h.
  induction Hin as [n nodes|n a nodes Hin IH]; intros h; simpl.
  - destruct (Hn h) as [x Hx]. exists x.
    unfold mbind, M_bind. by rewrite Hx.
  - unfold mret, M_ret, mbind, M_bind in *.
    destruct (f a h) as [[y h2]|e]; [|by eexists].
    destruct (IH Hn h2) as [x ->]. by eexists.
Qed.

Lemma createBlockWithFallback_throws reg name raw attributes h bn ty x :
  resolveBlockType reg name = (bn, Some ty) →
  included reg name raw = true →
  parseBlockAttributes innerHTML (trim raw) ty = Throw x →
  createBlockWithFallback innerHTML createBlock reg name raw attributes h
    = Throw x.
Proof.
  intros Hres Hi Hx.
  destruct (createBlockWithFallback_keep reg _ _ attributes h Hi)
    as (ty' & Hty' & ->).
  rewrite Hres in Hty'. injection Hty' as <-.
  by rewrite getBlockAttributes_present, Hx.
Qed.

Lemma mapM_outcomes reg nodes h outcomes h' :
  mapM (λ blockNode,
          createBlockWithFallback innerHTML createBlock reg
            (blockType blockNode) (rawContent blockNode) (attrs blockNode))
    nodes h = Ok (outcomes, h') →
  Forall2 (λ n o, is_Some o ↔ included reg (blockType n) (rawContent n) = true)
    nodes outcomes.
Proof.
  revert h outcomes. induction nodes as [|n nodes IH]; intros h outcomes.
  - intros [= <- <-]. constructor.
  - simpl. unfold mbind, M_bind, mret, M_ret in *.
    destruct (createBlockWithFallback _ _ _ _ _ _ h) as [[o h1]|x] eqn:Hc;
      [|done].
    destruct (mapM _ nodes h1) as [[os h2]|x] eqn:Hm; [|done].
    intros [= <- <-]. constructor; [|by eapply IH].
    destruct o as [b|].
    + apply createBlockWithFallback_Some in Hc as [Hi _]. by split; eauto.
    + apply createBlockWithFallback_None in Hc as [Hi _]. rewrite Hi.
      split; [by intros [? ?]|done].
Qed.

(** C6. [parseWithGrammar] is the map-and-filter of the grammar's nodes:
    each node is mapped, in order, to the outcome of
    [createBlockWithFallback], and the blocks among the outcomes are
    kept in that order. When it returns, the blocks are, one for one and
    in order, those made by [createBlock] for the nodes that pass the
    guard; the list has as many blocks as there are such nodes; and every
    node has one outcome, a block exactly when it passes the guard, the
    list being the blocks among the outcomes. *)
Theorem parseWithGrammar_map_filter reg content h :
  parseWithGrammar innerHTML createBlock grammarParse reg content h
  = (nodes ← grammarParse content;
     mapAndFilter innerHTML createBlock reg nodes) h
  ∧ ∀ nodes h0 blocks h',
      grammarParse content h = Ok (nodes, h0) →
      parseWithGrammar innerHTML createBlock grammarParse reg content h
        = Ok (blocks, h') →
      Forall2 (emitted innerHTML createBlock reg) (surviving reg nodes) blocks
      ∧ List.length blocks = List.length (surviving reg nodes)
      ∧ List.length blocks ≤ List.length nodes
      ∧ ∃ outcomes : list (option Block),
          Forall2 (λ n o, is_Some o
                          ↔ included reg (blockType n) (rawContent n) = true)
            nodes outcomes
          ∧ blocks = omap id outcomes.
Proof.
  split; [apply parseWithGrammar_run|].
  intros nodes h0 blocks h'. rewrite parseWithGrammar_run. intros -> Hmap.
  split; [by eapply mapAndFilter_emitted|].
  pose proof (Forall2_length _ _ _ (mapAndFilter_emitted _ _ _ _ _ Hmap))
    as Hlen.
  split; [done|]. split; [rewrite <- Hlen; apply length_filter|].
  unfold mapAndFilter, mbind, M_bind, mret, M_ret in Hmap.
  destruct (mapM _ nodes h0) as [[outcomes h1]|x] eqn:Hout; [|done].
  injection Hmap as <- <-. exists outcomes. split; [|done].
  by eapply mapM_outcomes.
Qed.

(** C9. When [parseWithGrammar] returns, every block of the list is what
    [createBlock] returned for a node that passes the guard, called with
    the name the node resolves to, and a type is registered under that
    name: the type the node resolves to. *)
Theorem parseWithGrammar_registered_names reg content h blocks h' :
  parseWithGrammar innerHTML createBlock grammarParse reg content h
    = Ok (blocks, h') →
  ∃ nodes h0,
    grammarParse content h = Ok (nodes, h0)
    ∧ Forall2 (λ n b, ∃ bn ty a h1 h2,
                 resolveBlockType reg (blockType n) = (bn, Some ty)
                 ∧ getBlockType reg bn = Some ty
                 ∧ createBlock bn a h1 = Ok (b, h2))
        (surviving reg nodes) blocks.
Proof.
  rewrite parseWithGrammar_run.
  destruct (grammarParse content h) as [[nodes h0]|x]; [|done].
  intros Hmap%mapAndFilter_emitted. exists nodes, h0. split; [done|].
  eapply Forall2_impl; [done|]. simpl.
  intros n b (bn & ty & h1 & a & h2 & h3 & Hres & _ & Hb).
  exists bn, ty, a, h2, h3. split; [done|].
  split; [by eapply resolveBlockType_registered|done].
Qed.

(** C7. For a node that passes the guard, [createBlockWithFallback]
    resolves the attributes from the trimmed content and then calls
    [createBlock] with the resolved name and the resolved attributes
    object. The attribute resolution hands the trimmed content to the
    extractor function, or the document built from it to the known
    matchers. The trimmed content is the content without a blank prefix
    and a blank suffix, and neither starts nor ends with a whitespace
    code unit. *)
Theorem createBlockWithFallback_trimmed reg name raw (delim : option loc) h
    bn ty :
  resolveBlockType reg name = (bn, Some ty) →
  included reg name raw = true →
  createBlockWithFallback innerHTML createBlock reg name raw delim h
  = match getBlockAttributes innerHTML (Some ty) (trim raw) delim h with
    | Ok (a, h1) =>
        match createBlock bn a h1 with
        | Ok (b, h2) => Ok (Some b, h2)
        | Throw x => Throw x
        end
    | Throw x => Throw x
    end
  ∧ (∀ x, parseBlockAttributes innerHTML (trim raw) ty = Throw x →
       getBlockAttributes innerHTML (Some ty) (trim raw) delim h = Throw x)
  ∧ (∀ e, parseBlockAttributes innerHTML (trim raw) ty = Ok e →
       ∃ a h1, getBlockAttributes innerHTML (Some ty) (trim raw) delim h
               = Ok (a, h1)
               ∧ h1 !! a = Some (e ∪ (default ∅ (defaultAttributes ty)
                                      ∪ default ∅ (delim ≫= (h !!.)))))
  ∧ (∀ f, attributes ty = Extractor f →
       parseBlockAttributes innerHTML (trim raw) ty = f (trim raw))
  ∧ (∀ ms, attributes ty = Matchers ms →
       parseBlockAttributes innerHTML (trim raw) ty
       = hpq_reduce (innerHTML (trim raw)) (pickBy ms) ∅)
  ∧ (∃ l r, raw = l +:+ trim raw +:+ r ∧ blank l = true ∧ blank r = true)
  ∧ (∀ c, first_unit (trim raw) = Some c ∨ last_unit (trim raw) = Some c →
       isWhiteSpace c = false).
Proof.
  intros Hres Hi.
  split; [|split; [|split; [|split; [|split; [|split]]]]].
  - destruct (createBlockWithFallback_keep reg _ _ delim h Hi)
      as (ty' & Hty' & ->).
    rewrite Hres in Hty' |- *. by injection Hty' as <-.
  - intros x Hx. by rewrite getBlockAttributes_present, Hx.
  - intros e He. rewrite getBlockAttributes_present, He. simpl.
    eexists _, _. split; [done|]. apply lookup_snoc_new.
  - intros f Hf. unfold parseBlockAttributes. by rewrite Hf.
  - intros ms Hms. unfold parseBlockAttributes. by rewrite Hms.
  - apply trim_split.
  - intros c [Hc|Hc]; [by eapply trim_first|by eapply trim_last].
Qed.

(** C8. An exception of the grammar is the exception of
    [parseWithGrammar], which returns no list. An exception of the
    extraction on the trimmed content of a node that passes the guard is
    the exception of [createBlockWithFallback] on that node; when the
    nodes before it were processed without one, it is the exception of
    [parseWithGrammar], and whatever the other nodes do, a list with such
    a node is never turned into a block list. The extraction throws what
    the extractor function throws, or what the first known matcher to
    throw throws. *)
Theorem parseWithGrammar_propagates reg content h :
  (∀ x, grammarParse content h = Throw x →
     parseWithGrammar innerHTML createBlock grammarParse reg content h
       = Throw x)
  ∧ (∀ name raw attributes h1 bn ty x,
       resolveBlockType reg name = (bn, Some ty) →
       included reg name raw = true →
       parseBlockAttributes innerHTML (trim raw) ty = Throw x →
       createBlockWithFallback innerHTML createBlock reg name raw
         attributes h1 = Throw x)
  ∧ (∀ pre n post h0 bs h1 x,
       grammarParse content h = Ok (pre ++ n :: post, h0) →
       mapAndFilter innerHTML createBlock reg pre h0 = Ok (bs, h1) →
       createBlockWithFallback innerHTML createBlock reg (blockType n)
         (rawContent n) (attrs n) h1 = Throw x →
       parseWithGrammar innerHTML createBlock grammarParse reg content h
         = Throw x)
  ∧ (∀ nodes h0 n bn ty x,
       grammarParse content h = Ok (nodes, h0) →
       n ∈ nodes →
       resolveBlockType reg (blockType n) = (bn, Some ty) →
       included reg (blockType n) (rawContent n) = true →
       parseBlockAttributes innerHTML (trim (rawContent n)) ty = Throw x →
       ∃ x', parseWithGrammar innerHTML createBlock grammarParse reg
               content h = Throw x')
  ∧ (∀ ty f raw x, attributes ty = Extractor f → f raw = Throw x →
       parseBlockAttributes innerHTML raw ty = Throw x)
  ∧ (∀ ty ms raw pre k m post x,
       attributes ty = Matchers ms →
       pickBy ms = pre ++ (k, m) :: post →
       (∀ k' m', (k', m') ∈ pre →
          ∃ v, matcher_fn m' (innerHTML raw) = Ok v) →
       matcher_fn m (innerHTML raw) = Throw x →
       parseBlockAttributes innerHTML raw ty = Throw x).
Proof.
  split; [|split; [|split; [|split; [|split]]]].
  - intros x Hx. by rewrite parseWithGrammar_run, Hx.
  - intros name raw attributes h1 bn ty x.
    apply createBlockWithFallback_throws.
  - intros pre n post h0 bs h1 x Hg Hpre Hn.
    rewrite parseWithGrammar_run, Hg.
    unfold mapAndFilter, mbind, M_bind in Hpre |- *.
    destruct (mapM _ pre h0) as [[ys h2]|e] eqn:Hys; [|done].
    injection Hpre as <- <-.
    by rewrite (mapM_throws_at _ pre n post h0 ys h2 x).
  - intros nodes h0 n bn ty x Hg Hin Hres Hi Hx.
    rewrite parseWithGrammar_run, Hg.
    unfold mapAndFilter, mbind, M_bind.
    destruct (mapM_throws_elem
                (λ blockNode,
                   createBlockWithFallback innerHTML createBlock reg
                     (blockType blockNode) (rawContent blockNode)
                     (attrs blockNode)) nodes n h0 Hin) as [x' ->].
    + intros h1. exists x. by eapply createBlockWithFallback_throws.
    + by exists x'.
  - intros ty f raw x Hf Hx. unfold parseBlockAttributes. by rewrite Hf.
  - intros ty ms raw pre k m post x Hms Hpick Hpre Hx.
    unfold parseBlockAttributes, hpqParse. rewrite Hms. simpl.
    rewrite Hpick. by apply hpq_reduce_throws.
Qed.
End properties.

(** ** Further properties of the parser *)

Section further.
Context {V Node Block exn : Type}.
Variable innerHTML : string → Node.
Variable createBlock : option string → loc → M V exn Block.

Local Abbreviation object := (gmap string V).
Local Abbreviation heap := (list (gmap string V)).
Implicit Types (h : heap) (ty : BlockType V Node exn) (reg : Registry V Node exn).
Implicit Types (raw content : string) (name : option string).
Implicit Types (delim : option loc) (g : string → M V exn (list ParseNode)).

(** X1. Whitespace around the raw content of a node has no part in what
    [createBlockWithFallback] does: padding the content with blank strings,
    or trimming it beforehand, gives the same outcome in the same store. *)
Theorem createBlockWithFallback_whitespace reg name raw delim h :
  (∀ l r, blank l = true → blank r = true →
     createBlockWithFallback innerHTML createBlock reg name
       (l +:+ raw +:+ r) delim h
     = createBlockWithFallback innerHTML createBlock reg name raw delim h)
  ∧ createBlockWithFallback innerHTML createBlock reg name (trim raw) delim h
    = createBlockWithFallback innerHTML createBlock reg name raw delim h.
Proof.
  split.
  - intros l r Hl Hr. unfold createBlockWithFallback.
    by rewrite trim_pad.
  - unfold createBlockWithFallback. by rewrite trim_idem.
Qed.

(** X2. Resolution is stable: the name a node resolves to resolves to
    itself, with the same type. *)
Theorem resolveBlockType_idempotent reg name :
  resolveBlockType reg (resolveBlockType reg name).1
  = resolveBlockType reg name.
Proof.
  unfold resolveBlockType.
  set (fb := getUnknownTypeHandler reg).
  assert (name_or fb fb = fb) as Hfb.
  { destruct fb as [s|]; [|done]. simpl. by destruct (truthy s). }
  assert (name_or (name_or name fb) fb = name_or name fb) as Hfirst.
  { destruct name as [s|]; [|done]. simpl.
    destruct (truthy s) eqn:Hs; [|done]. simpl. by rewrite Hs. }
  destruct (getBlockType reg (name_or name fb)) as [t|] eqn:Ht; simpl.
  - by rewrite Hfirst, Ht.
  - rewrite Hfb. by destruct (getBlockType reg fb).
Qed.

(** X5. Every call with a block type builds its own object: a second
    call on the same arguments, in the store the first one left, returns
    another reference, and the two objects hold the same attributes. *)
Theorem getBlockAttributes_fresh_per_call ty raw delim h r1 h1 :
  (∀ l, delim = Some l → is_Some (h !! l)) →
  getBlockAttributes innerHTML (Some ty) raw delim h = Ok (r1, h1) →
  ∃ r2 h2,
    getBlockAttributes innerHTML (Some ty) raw delim h1 = Ok (r2, h2)
    ∧ r1 ≠ r2
    ∧ is_Some (h2 !! r1)
    ∧ h2 !! r1 = h2 !! r2.
Proof.
  intros Hvalid. rewrite !getBlockAttributes_present.
  destruct (parseBlockAttributes innerHTML raw ty) as [e|x]; [|done].
  simpl. intros [= <- <-].
  set (d := default ∅ (defaultAttributes ty)).
  destruct delim as [l|]; simpl.
  - destruct (Hvalid l eq_refl) as [o Ho]. rewrite Ho. simpl.
    rewrite (lookup_app_l_Some _ _ _ _ Ho). simpl.
    eexists _, _. split; [done|]. rewrite length_app. simpl.
    split; [lia|].
    rewrite (lookup_app_l_Some _ _ _ _ (lookup_snoc_new h (e ∪ (d ∪ o)))).
    split; [by eexists|].
    replace (List.length h + 1) with (List.length (h ++ [e ∪ (d ∪ o)]))
      by (rewrite length_app; simpl; lia).
    by rewrite lookup_snoc_new.
  - eexists _, _. split; [done|]. rewrite !length_app. simpl.
    split; [lia|].
    assert (((h ++ [∅]) ++ [e ∪ (d ∪ ∅)]) !! List.length (h ++ [∅])
            = Some (e ∪ (d ∪ ∅))) as Hfirst by apply lookup_snoc_new.
    rewrite length_app in Hfirst. simpl in Hfirst.
    rewrite (lookup_app_l_Some _ _ _ _
               (lookup_app_l_Some _ [∅] _ _ Hfirst)).
    split; [by eexists|].
    replace (List.length h + 1 + 1 + 1)
      with (List.length ((((h ++ [∅]) ++ [e ∪ (d ∪ ∅)]) ++ [∅])))
      by (rewrite !length_app; simpl; lia).
    by rewrite lookup_snoc_new.
Qed.

(** X6. A block type that declares no [attributes], or an object of
    entries none of which carries the flag, extracts nothing and never
    throws: the resolved object holds the defaults over the delimiter
    attributes, and exactly the delimiter attributes when the type has no
    defaults either. *)
Theorem getBlockAttributes_nothing_extracted ty raw delim h :
  attributes ty = NoAttributes
  ∨ (∃ ms, attributes ty = Matchers ms
           ∧ Forall (λ km, _wpBlocksKnownMatcher km.2 = false) ms) →
  ∃ r h' o,
    getBlockAttributes innerHTML (Some ty) raw delim h = Ok (r, h')
    ∧ h' !! r = Some o
    ∧ (∀ k, o !! k = match default ∅ (defaultAttributes ty) !! k with
                     | Some v => Some v
                     | None => default ∅ (delim ≫= (h !!.)) !! k
                     end)
    ∧ (defaultAttributes ty = None → o = default ∅ (delim ≫= (h !!.))).
Proof.
  intros Hty.
  assert (parseBlockAttributes innerHTML raw ty = Ok ∅) as He.
  { unfold parseBlockAttributes.
    destruct Hty as [->|(ms & -> & Hms)]; [done|].
    unfold hpqParse, pickBy.
    assert (filter (λ km : string * Matcher V Node exn,
                      _wpBlocksKnownMatcher km.2 = true) ms = []) as ->;
      [|done].
    induction Hms as [|km ms Hkm _ IH]; [done|].
    rewrite filter_cons_False by (by rewrite Hkm). done. }
  rewrite getBlockAttributes_present, He. simpl.
  eexists _, _, _. split; [done|]. split; [apply lookup_snoc_new|].
  rewrite (left_id_L ∅ (∪)). split.
  - intros k. rewrite lookup_union.
    by destruct (default ∅ (defaultAttributes ty) !! k),
                (default ∅ (delim ≫= (h !!.)) !! k).
  - intros ->. simpl. by rewrite (left_id_L ∅ (∪)).
Qed.

(** *** Lists of nodes *)

Lemma mapAndFilter_cons reg (n : ParseNode) nodes h :
  mapAndFilter innerHTML createBlock reg (n :: nodes) h
  = match createBlockWithFallback innerHTML createBlock reg (blockType n)
            (rawContent n) (attrs n) h with
    | Ok (o, h1) =>
        match mapAndFilter innerHTML createBlock reg nodes h1 with
        | Ok (bs, h2) =>
            Ok (match o with Some b => b :: bs | None => bs end, h2)
        | Throw x => Throw x
        end
    | Throw x => Throw x
    end.
Proof.
  unfold mapAndFilter. simpl. unfold mbind, M_bind, mret, M_ret.
  destruct (createBlockWithFallback _ _ _ _ _ _ h) as [[o h1]|x]; [|done].
  destruct (mapM _ nodes h1) as [[os h2]|x]; [|done].
  by destruct o.
Qed.

Lemma mapAndFilter_app reg (l1 l2 : list ParseNode) h :
  mapAndFilter innerHTML createBlock reg (l1 ++ l2) h
  = match mapAndFilter innerHTML createBlock reg l1 h with
    | Ok (bs1, h1) =>
        match mapAndFilter innerHTML createBlock reg l2 h1 with
        | Ok (bs2, h2) => Ok (bs1 ++ bs2, h2)
        | Throw x => Throw x
        end
    | Throw x => Throw x
    end.
Proof.
  revert h. induction l1 as [|n l1 IH]; intros h.
  - change (mapAndFilter innerHTML createBlock reg [] h) with
      (Ok (E:=exn) (@nil Block, h)). simpl.
    by destruct (mapAndFilter _ _ _ l2 h) as [[bs2 h2]|x].
  - change ((n :: l1) ++ l2) with (n :: (l1 ++ l2)).
    rewrite !mapAndFilter_cons.
    destruct (createBlockWithFallback _ _ _ _ _ _ h) as [[o h1]|x]; [|done].
    rewrite IH.
    destruct (mapAndFilter _ _ _ l1 h1) as [[bs1 h2]|x]; [|done].
    destruct (mapAndFilter _ _ _ l2 h2) as [[bs2 h3]|x]; [|done].
    by destruct o.
Qed.

Lemma length_filter_impl {A} (P Q : A → Prop)
    `{!∀ x, Decision (P x)} `{!∀ x, Decision (Q x)} (l : list A) :
  (∀ x, P x → Q x) → List.length (filter P l) ≤ List.length (filter Q l).
Proof.
  intros HPQ. induction l as [|x l IH]; [done|].
  destruct (decide (P x)) as [HP|HP].
  - rewrite !filter_cons_True by auto. simpl. lia.
  - rewrite (filter_cons_False P) by done.
    destruct (decide (Q x)).
    + rewrite filter_cons_True by done. simpl. lia.
    + by rewrite filter_cons_False by done.
Qed.

Lemma getBlockAttributes_prefix (bt : option (BlockType V Node exn))
    raw delim h r h' :
  getBlockAttributes innerHTML bt raw delim h = Ok (r, h') → h `prefix_of` h'.
Proof.
  destruct bt as [ty|].
  - rewrite getBlockAttributes_present.
    destruct (parseBlockAttributes innerHTML raw ty) as [e|x]; [|done].
    simpl. intros [= <- <-].
    destruct delim; [by eexists|]. rewrite <- app_assoc. by eexists.
  - rewrite getBlockAttributes_missing.
    destruct delim; intros [= <- <-]; [done|by eexists].
Qed.

(** X3. When a type is registered under the name of the unknown type
    handler, no content is dropped: every node resolves to a type, a node
    whose content is not blank never yields null, and a parse that returns
    has at least as many blocks as the grammar gave nodes with content
    that is not blank. *)
Theorem registered_handler_keeps_content reg fty :
  getBlockType reg (getUnknownTypeHandler reg) = Some fty →
  (∀ name, is_Some (resolveBlockType reg name).2)
  ∧ (∀ name raw delim h h', blank raw = false →
       createBlockWithFallback innerHTML createBlock reg name raw delim h
       ≠ Ok (None, h'))
  ∧ (∀ g content h nodes h0 blocks h',
       g content h = Ok (nodes, h0) →
       parseWithGrammar innerHTML createBlock g reg content h
         = Ok (blocks, h') →
       List.length (filter (λ n, blank (rawContent n) = false) nodes)
       ≤ List.length blocks).
Proof.
  intros Hfb.
  assert (∀ name, is_Some (resolveBlockType reg name).2) as Hres.
  { intros name. unfold resolveBlockType.
    destruct (getBlockType reg (name_or name _)); simpl; [done|].
    by rewrite Hfb. }
  assert (∀ name raw, blank raw = false → included reg name raw = true)
    as Hinc.
  { intros name raw Hraw. apply included_spec. split; [done|]. left.
    intros Ht%trim_blank. congruence. }
  split; [done|]. split.
  - intros name raw delim h h' Hraw Hnull.
    apply createBlockWithFallback_None in Hnull as [Hi _].
    rewrite Hinc in Hi; done.
  - intros g content h nodes h0 blocks h' Hg.
    rewrite parseWithGrammar_run, Hg. intros Hmap%mapAndFilter_emitted.
    rewrite <- (Forall2_length _ _ _ Hmap). unfold surviving.
    apply length_filter_impl. intros n. apply Hinc.
Qed.

(** X4. Parsing composes over the node list: when the grammar yields the
    nodes [l1] followed by [l2], the result is the blocks of [l1] followed
    by the blocks of [l2], the latter parsed in the store the former left;
    an exception met in [l1] is the result. *)
Theorem parseWithGrammar_app reg g g1 g2 content h
    (l1 l2 : list ParseNode) h0 :
  g content h = Ok (l1 ++ l2, h0) →
  g1 content h = Ok (l1, h0) →
  (∀ x, parseWithGrammar innerHTML createBlock g1 reg content h = Throw x →
        parseWithGrammar innerHTML createBlock g reg content h = Throw x)
  ∧ (∀ bs1 h1,
       parseWithGrammar innerHTML createBlock g1 reg content h = Ok (bs1, h1) →
       g2 content h = Ok (l2, h1) →
       parseWithGrammar innerHTML createBlock g reg content h
       = match parseWithGrammar innerHTML createBlock g2 reg content h with
         | Ok (bs2, h2) => Ok (bs1 ++ bs2, h2)
         | Throw x => Throw x
         end).
Proof.
  intros Hg Hg1. rewrite !(parseWithGrammar_run _ _ g), Hg.
  rewrite !(parseWithGrammar_run _ _ g1), Hg1. rewrite mapAndFilter_app.
  split.
  - by intros x ->.
  - intros bs1 h1 -> Hg2. by rewrite (parseWithGrammar_run _ _ g2), Hg2.
Qed.

(** X8. A node that does not pass the guard leaves no trace: the parse of
    a node list with such a node is the parse of the list without it. *)
Theorem parseWithGrammar_without_suppressed reg g g' content h
    (l1 l2 : list ParseNode) n h0 :
  g content h = Ok (l1 ++ n :: l2, h0) →
  g' content h = Ok (l1 ++ l2, h0) →
  included reg (blockType n) (rawContent n) = false →
  parseWithGrammar innerHTML createBlock g reg content h
  = parseWithGrammar innerHTML createBlock g' reg content h.
Proof.
  intros Hg Hg' Hn.
  rewrite (parseWithGrammar_run _ _ g), Hg, (parseWithGrammar_run _ _ g'), Hg'.
  rewrite !mapAndFilter_app.
  destruct (mapAndFilter _ _ _ l1 h0) as [[bs1 h1]|x]; [|done].
  rewrite mapAndFilter_cons, createBlockWithFallback_skip by done.
  by destruct (mapAndFilter _ _ _ l2 h1) as [[bs2 h2]|x].
Qed.

Lemma createBlockWithFallback_prefix reg name raw delim h o h' :
  (∀ bn a h1 b h2, createBlock bn a h1 = Ok (b, h2) → h1 `prefix_of` h2) →
  createBlockWithFallback innerHTML createBlock reg name raw delim h
    = Ok (o, h') →
  h `prefix_of` h'.
Proof.
  intros Hcb Hcall. destruct o as [b|].
  - apply createBlockWithFallback_Some
      in Hcall as (_ & bn & ty & a & h1 & _ & Ha & Hb).
    etrans; [by eapply getBlockAttributes_prefix|by eapply Hcb].
  - by apply createBlockWithFallback_None in Hcall as [_ ->].
Qed.

Lemma mapAndFilter_prefix reg nodes h bs h' :
  (∀ bn a h1 b h2, createBlock bn a h1 = Ok (b, h2) → h1 `prefix_of` h2) →
  mapAndFilter innerHTML createBlock reg nodes h = Ok (bs, h') →
  h `prefix_of` h'.
Proof.
  intros Hcb. revert h bs. induction nodes as [|n nodes IH]; intros h bs.
  - by intros [= <- <-].
  - rewrite mapAndFilter_cons.
    destruct (createBlockWithFallback _ _ _ _ _ _ h) as [[o h1]|x] eqn:Hc;
      [|done].
    destruct (mapAndFilter _ _ _ nodes h1) as [[bs' h2]|x] eqn:Hm; [|done].
    intros [= <- <-].
    etrans; [by eapply createBlockWithFallback_prefix|by eapply IH].
Qed.

(** X7. When [createBlock] only adds objects to the store, so does the
    whole parse after the grammar: every object of the store the grammar
    left, the [attrs] object of each node among them, is as it was when
    [parseWithGrammar] returns. *)
Theorem parseWithGrammar_frame reg g content h nodes h0 blocks h' :
  (∀ bn a h1 b h2, createBlock bn a h1 = Ok (b, h2) → h1 `prefix_of` h2) →
  g content h = Ok (nodes, h0) →
  parseWithGrammar innerHTML createBlock g reg content h = Ok (blocks, h') →
  h0 `prefix_of` h'
  ∧ ∀ n l o, n ∈ nodes → attrs n = Some l → h0 !! l = Some o →
             h' !! l = Some o.
Proof.
  intros Hcb Hg. rewrite parseWithGrammar_run, Hg.
  intros Hpre%mapAndFilter_prefix; [|done].
  split; [done|]. intros n l o _ _ Hl. by eapply prefix_lookup_Some.
Qed.

(** *** Key order and construction failures *)

(** X9. With distinct keys, the extraction by matchers does not depend on
    the order of the entries of the [attributes] object: when it returns
    for one order it returns the same attributes for any other. *)
Theorem parseBlockAttributes_key_order
    (ms ms' : list (string * Matcher V Node exn)) d raw e :
  NoDup ms.*1 → ms ≡ₚ ms' →
  parseBlockAttributes innerHTML raw
    {| attributes := Matchers ms; defaultAttributes := d |} = Ok e →
  parseBlockAttributes innerHTML raw
    {| attributes := Matchers ms'; defaultAttributes := d |} = Ok e.
Proof.
  unfold parseBlockAttributes, hpqParse. simpl. intros Hnd Hperm He.
  assert (pickBy ms ≡ₚ pickBy ms') as Hpick.
  { unfold pickBy. by rewrite Hperm. }
  assert (NoDup (pickBy ms).*1) as Hnd1.
  { apply (sublist_NoDup _ ms.*1); [done|].
    apply fmap_sublist, sublist_filter. }
  assert (NoDup (pickBy ms').*1) as Hnd2 by (by rewrite <- Hpick).
  destruct (hpq_reduce_returns (innerHTML raw) (pickBy ms') ∅) as [e' He'].
  { intros k m Hin. rewrite <- Hpick in Hin.
    destruct (hpq_reduce_lookup _ _ _ _ _ _ He Hnd1 Hin) as (v & Hv & _).
    by exists v. }
  rewrite He'. f_equal. apply map_eq. intros k.
  destruct (decide (k ∈ (pickBy ms).*1)) as [Hk|Hk].
  - apply list_elem_of_fmap in Hk as ([k' m] & -> & Hin). simpl.
    destruct (hpq_reduce_lookup _ _ _ _ _ _ He Hnd1 Hin) as (v & Hv & ->).
    rewrite Hpick in Hin.
    destruct (hpq_reduce_lookup _ _ _ _ _ _ He' Hnd2 Hin) as (v' & Hv' & ->).
    congruence.
  - assert (e !! k = None) as ->.
    { apply eq_None_not_Some.
      rewrite (hpq_reduce_dom _ _ _ _ He k), lookup_empty.
      intros [[? [=]]|?]. done. }
    apply eq_None_not_Some.
    rewrite (hpq_reduce_dom _ _ _ _ He' k), lookup_empty, <- Hpick.
    intros [[? [=]]|?]. done.
Qed.

(** X10. An exception of [createBlock] is not caught: it is the
    exception of [createBlockWithFallback] on that node and, when the
    nodes before it were processed without one, of [parseWithGrammar]. *)
Theorem createBlock_exception_propagates reg name raw delim h bn ty a h1 x :
  resolveBlockType reg name = (bn, Some ty) →
  included reg name raw = true →
  getBlockAttributes innerHTML (Some ty) (trim raw) delim h = Ok (a, h1) →
  createBlock bn a h1 = Throw x →
  createBlockWithFallback innerHTML createBlock reg name raw delim h = Throw x
  ∧ ∀ g g1 content hs (pre post : list ParseNode) hg bs,
      g content hs = Ok (pre ++ {| blockType := name; rawContent := raw;
                                   attrs := delim |} :: post, hg) →
      g1 content hs = Ok (pre, hg) →
      parseWithGrammar innerHTML createBlock g1 reg content hs = Ok (bs, h) →
      parseWithGrammar innerHTML createBlock g reg content hs = Throw x.
Proof.
  intros Hres Hi Ha Hb.
  assert (createBlockWithFallback innerHTML createBlock reg name raw delim h
          = Throw x) as Hthrow.
  { destruct (createBlockWithFallback_keep innerHTML createBlock
                reg _ _ delim h Hi) as (ty' & Hty' & ->).
    rewrite Hres in Hty' |- *. injection Hty' as <-. simpl.
    by rewrite Ha, Hb. }
  split; [done|].
  intros g g1 content hs pre post hg bs Hg Hg1.
  rewrite (parseWithGrammar_run _ _ g1), Hg1. intros Hpre.
  rewrite (parseWithGrammar_run _ _ g), Hg, mapAndFilter_app, Hpre.
  rewrite mapAndFilter_cons. simpl. by rewrite Hthrow.
Qed.

End further.

(** ** The parser run on the small instance *)

Example trim_spaces : trim "  a b  " = "a b".
Proof. reflexivity. Qed.

Example trim_line_terminators :
  trim (String "009" (String "010" (String "013" "x"))) = "x".
Proof. reflexivity. Qed.

Example trim_no_break_space : trim (String "160" "x") = "x".
Proof. reflexivity. Qed.

Example trim_inner_space_kept : trim "a  b" = "a  b".
Proof. reflexivity. Qed.

(** Freeform text becomes a block of the unknown type handler. *)
Example stray_text :
  parseWithGrammar sample_innerHTML sample_createBlock freeform_grammar
    sample_registry "stray text" []
  = Ok ([(Some "core/freeform", 1)], [∅; ∅]).
Proof. by vm_compute. Qed.

Example whitespace_only :
  parseWithGrammar sample_innerHTML sample_createBlock freeform_grammar
    sample_registry "   " [] = Ok ([], [∅]).
Proof. by vm_compute. Qed.

(** Delimiter attributes are kept where neither the defaults nor the
    extraction have the key. *)
Example delimiter_attributes_merged :
  createBlockWithFallback sample_innerHTML sample_createBlock sample_registry
    (Some "core/text") " hello " (Some 0) [ {[ "align" := 7; "id" := 3 ]} ]
  = Ok (Some (Some "core/text", 1),
        [ {[ "align" := 7; "id" := 3 ]};
          {[ "length" := 5; "align" := 0; "id" := 3 ]} ]).
Proof. by vm_compute. Qed.

(** A section of an unregistered type becomes a block of the handler. *)
Example unknown_name_falls_back :
  createBlockWithFallback sample_innerHTML sample_createBlock sample_registry
    (Some "core/gallery") "x" None []
  = Ok (Some (Some "core/freeform", 1), [∅; ∅]).
Proof. by vm_compute. Qed.

(** With the handler unregistered there is no block. *)
Example unknown_name_without_handler :
  createBlockWithFallback sample_innerHTML sample_createBlock bare_registry
    (Some "core/gallery") "x" None [] = Ok (None, []).
Proof. by vm_compute. Qed.

(** An empty section that names the handler itself is dropped like
    freeform whitespace. *)
Example empty_handler_section :
  createBlockWithFallback sample_innerHTML sample_createBlock sample_registry
    (Some "core/freeform") " " None [] = Ok (None, []).
Proof. by vm_compute. Qed.

(** The empty string is no name. *)
Example empty_name :
  resolveBlockType sample_registry (Some "")
  = (Some "core/freeform", Some freeform_type).
Proof. by vm_compute. Qed.

Example broken_section :
  parseWithGrammar sample_innerHTML sample_createBlock
    (fixed_grammar (sample_nodes ++ [broken_node])) sample_registry
    "document" [∅] = Throw "unreadable content".
Proof. by vm_compute. Qed.

(** ** The theorems at the small instance *)

Lemma getBlockAttributes_merge_precedence_witness :
  (∃ r h' o,
     getBlockAttributes sample_innerHTML (Some text_type) "hello" (Some 0)
       [ {[ "align" := 2; "b" := 3 ]} ] = Ok (r, h')
     ∧ h' !! r = Some o
     ∧ o !! "length" = Some 5 ∧ o !! "align" = Some 0 ∧ o !! "b" = Some 3)
  ∧ (∃ r h',
       getBlockAttributes (exn:=string) sample_innerHTML
         (Some {| attributes := Extractor (λ _, Ok {[ "a" := 4 ]});
                  defaultAttributes := Some {[ "a" := 1 ]} |})
         "hello" (Some 0) [ {[ "a" := 2; "b" := 3 ]} ] = Ok (r, h')
       ∧ h' !! r = Some {[ "a" := 4; "b" := 3 ]}).
Proof.
  split.
  - destruct (getBlockAttributes_merge_precedence sample_innerHTML text_type
                "hello" (Some 0) [ {[ "align" := 2; "b" := 3 ]} ])
      as (Hmerge & _ & _).
    destruct (Hmerge {[ "length" := 5 ]} eq_refl)
      as (r & h' & o & Hcall & Ho & Hk).
    exists r, h', o. split; [exact Hcall|]. split; [exact Ho|].
    rewrite (Hk "length"), (Hk "align"), (Hk "b"). by vm_compute.
  - destruct (getBlockAttributes_merge_precedence sample_innerHTML text_type
                "hello" (Some 0) [ {[ "a" := 2; "b" := 3 ]} ])
      as (_ & _ & Hp2).
    apply (Hp2 1 2 3 4 0). reflexivity.
Defined.

Lemma getBlockAttributes_frame_witness :
  ∃ r h',
    [ ({[ "a" := 2; "b" := 3 ]} : gmap string nat) ] `prefix_of` h'
    ∧ (∀ l o, [ ({[ "a" := 2; "b" := 3 ]} : gmap string nat) ] !! l = Some o →
              h' !! l = Some o)
    ∧ (is_Some (Some text_type) →
         [ ({[ "a" := 2; "b" := 3 ]} : gmap string nat) ] !! r = None
         ∧ is_Some (h' !! r)
         ∧ ∀ l, Some 0 = Some l →
                is_Some ([ ({[ "a" := 2; "b" := 3 ]} : gmap string nat) ] !! l) →
                r ≠ l).
Proof.
  eexists _, _.
  apply (getBlockAttributes_frame sample_innerHTML (Some text_type) "hi"
           (Some 0) [ {[ "a" := 2; "b" := 3 ]} ]).
  vm_compute. reflexivity.
Defined.

Lemma createBlockWithFallback_null_iff_witness :
  (∃ h', createBlockWithFallback sample_innerHTML sample_createBlock
           sample_registry None "   " (Some 0) [∅] = Ok (None, h'))
  ∧ parseWithGrammar sample_innerHTML sample_createBlock freeform_grammar
      sample_registry "   " [] = Ok ([], [∅])
  ∧ createBlockWithFallback sample_innerHTML sample_createBlock
      sample_registry (Some "core/text") "" (Some 0) [∅]
    = Ok (Some (Some "core/text", 1),
          [∅; {[ "length" := 0; "align" := 0 ]}]).
Proof.
  split; [|split].
  - destruct (createBlockWithFallback_null_iff sample_innerHTML
                sample_createBlock freeform_grammar sample_registry None
                "   " (Some 0) [∅]) as (Hnull & _).
    apply Hnull. right. by vm_compute.
  - destruct (createBlockWithFallback_null_iff sample_innerHTML
                sample_createBlock freeform_grammar sample_registry None
                "   " (Some 0) []) as (_ & _ & _ & Hblank & _).
    apply (Hblank "   " [{| blockType := None; rawContent := "   ";
                            attrs := Some 0 |}] [∅]).
    + reflexivity.
    + repeat constructor.
  - destruct (createBlockWithFallback_null_iff sample_innerHTML
                sample_createBlock freeform_grammar sample_registry
                (Some "core/text") "" (Some 0) [∅])
      as (_ & _ & _ & _ & Hnamed).
    apply (Hnamed "core/text" text_type 1
             [∅; {[ "length" := 0; "align" := 0 ]}]);
      by vm_compute.
Defined.

Lemma resolveBlockType_single_retry_witness :
  (resolveBlockType bare_registry (Some "core/gallery")).2 = None
  ∧ resolveBlockType sample_registry (Some "core/gallery")
    = (Some "core/freeform", Some freeform_type)
  ∧ resolveBlockType sample_registry (Some "core/text")
    = (Some "core/text", Some text_type)
  ∧ resolveBlockType small_registry (Some "core/text")
    = resolveBlockType sample_registry (Some "core/text").
Proof.
  split; [|split; [|split]].
  - destruct (resolveBlockType_single_retry sample_innerHTML
                sample_createBlock bare_registry (Some "core/gallery"))
      as (_ & _ & _ & _ & Hnone & _).
    apply Hnone; reflexivity.
  - destruct (resolveBlockType_single_retry sample_innerHTML
                sample_createBlock sample_registry (Some "core/gallery"))
      as (_ & _ & _ & Hretry & _).
    apply Hretry. reflexivity.
  - destruct (resolveBlockType_single_retry sample_innerHTML
                sample_createBlock sample_registry (Some "core/text"))
      as (_ & _ & _ & _ & _ & _ & Hdeclared).
    apply (Hdeclared "core/text" text_type); by vm_compute.
  - destruct (resolveBlockType_single_retry sample_innerHTML
                sample_createBlock sample_registry (Some "core/text"))
      as (_ & _ & _ & _ & _ & Hsame & _).
    apply Hsame; reflexivity.
Defined.

Lemma parseBlockAttributes_known_matchers_witness :
  parseBlockAttributes sample_innerHTML "<p>hi</p>"
    {| attributes := Matchers [("size", size_matcher);
                               ("plain", plain_function)];
       defaultAttributes := None |}
  = parseBlockAttributes sample_innerHTML "<p>hi</p>"
      {| attributes := Matchers [("size", size_matcher)];
         defaultAttributes := None |}
  ∧ ∃ e,
      parseBlockAttributes sample_innerHTML "<p>hi</p>"
        {| attributes := Matchers [("size", size_matcher);
                                   ("plain", plain_function)];
           defaultAttributes := None |} = Ok e
      ∧ e !! "size" = Some 9
      ∧ ¬ is_Some (e !! "plain").
Proof.
  destruct (parseBlockAttributes_known_matchers sample_innerHTML
              [("size", size_matcher); ("plain", plain_function)] None
              "<p>hi</p>") as (Hdrop & Hkeys & Hvalues & Hreturns).
  split.
  - apply (Hdrop [("size", size_matcher)] "plain" plain_function []);
      reflexivity.
  - destruct Hreturns as [e He].
    { intros k m Hin Hm. repeat apply elem_of_cons in Hin as [Hin|Hin].
      - injection Hin as -> ->. by eexists.
      - injection Hin as -> ->. discriminate Hm.
      - by apply elem_of_nil in Hin. }
    exists e. split; [exact He|]. split.
    + destruct (Hvalues e "size" size_matcher He) as (v & Hv & ->).
      * apply (bool_decide_unpack _). by vm_compute.
      * by left.
      * reflexivity.
      * by injection Hv as <-.
    + rewrite (Hkeys e He "plain"). intros (m & Hin & Hm).
      repeat apply elem_of_cons in Hin as [Hin|Hin].
      * discriminate Hin.
      * injection Hin as ->. discriminate Hm.
      * by apply elem_of_nil in Hin.
Defined.

Lemma parseWithGrammar_map_filter_witness :
  ∃ blocks,
    Forall2 (emitted sample_innerHTML sample_createBlock sample_registry)
      (surviving sample_registry sample_nodes) blocks
    ∧ List.length blocks = List.length (surviving sample_registry sample_nodes)
    ∧ List.length blocks ≤ List.length sample_nodes
    ∧ ∃ outcomes : list (option (option string * loc)),
        Forall2 (λ n o, is_Some o
                        ↔ included sample_registry (blockType n) (rawContent n)
                          = true)
          sample_nodes outcomes
        ∧ blocks = omap id outcomes.
Proof.
  eexists.
  destruct (parseWithGrammar_map_filter sample_innerHTML sample_createBlock
              (fixed_grammar sample_nodes) sample_registry "document" [∅])
    as (_ & Hblocks).
  apply (Hblocks sample_nodes [∅] [(Some "core/text", 1)]
           [∅; {[ "length" := 5; "align" := 0 ]}]);
    by vm_compute.
Defined.

Lemma parseWithGrammar_registered_names_witness :
  ∃ nodes h0,
    fixed_grammar sample_nodes "document" [∅] = Ok (nodes, h0)
    ∧ Forall2 (λ n b, ∃ bn ty a h1 h2,
                 resolveBlockType sample_registry (blockType n) = (bn, Some ty)
                 ∧ getBlockType sample_registry bn = Some ty
                 ∧ sample_createBlock bn a h1 = Ok (b, h2))
        (surviving sample_registry nodes) [(Some "core/text", 1)].
Proof.
  apply (parseWithGrammar_registered_names sample_innerHTML sample_createBlock
           (fixed_grammar sample_nodes) sample_registry "document" [∅]
           [(Some "core/text", 1)] [∅; {[ "length" := 5; "align" := 0 ]}]).
  by vm_compute.
Defined.

Lemma createBlockWithFallback_trimmed_witness :
  createBlockWithFallback sample_innerHTML sample_createBlock sample_registry
    (Some "core/text") " hello " (Some 0) [∅]
  = Ok (Some (Some "core/text", 1), [∅; {[ "length" := 5; "align" := 0 ]}]).
Proof.
  destruct (createBlockWithFallback_trimmed sample_innerHTML sample_createBlock
              sample_registry (Some "core/text") " hello " (Some 0) [∅]
              (Some "core/text") text_type) as (Hcall & _).
  - reflexivity.
  - reflexivity.
  - rewrite Hcall. by vm_compute.
Defined.

Lemma parseWithGrammar_propagates_witness :
  parseWithGrammar sample_innerHTML sample_createBlock failing_grammar
    sample_registry "<!--" [] = Throw "syntax error"
  ∧ parseWithGrammar sample_innerHTML sample_createBlock
      (fixed_grammar (sample_nodes ++ [broken_node])) sample_registry
      "document" [∅] = Throw "unreadable content"
  ∧ parseBlockAttributes sample_innerHTML "<p>hi</p>"
      {| attributes := Matchers [("plain", plain_function);
                                 ("size", size_matcher);
                                 ("missing", broken_matcher)];
         defaultAttributes := None |} = Throw "no such element".
Proof.
  split; [|split].
  - destruct (parseWithGrammar_propagates sample_innerHTML sample_createBlock
                failing_grammar sample_registry "<!--" []) as (Hgrammar & _).
    apply Hgrammar. reflexivity.
  - destruct (parseWithGrammar_propagates sample_innerHTML sample_createBlock
                (fixed_grammar (sample_nodes ++ [broken_node]))
                sample_registry "document" [∅])
      as (_ & Hnode & Hfirst & _).
    apply (Hfirst sample_nodes broken_node [] [∅] [(Some "core/text", 1)]
             [∅; {[ "length" := 5; "align" := 0 ]}]).
    + reflexivity.
    + by vm_compute.
    + apply (Hnode _ _ _ _ (Some "core/broken") broken_type); reflexivity.
  - destruct (parseWithGrammar_propagates sample_innerHTML sample_createBlock
                failing_grammar sample_registry "<!--" [])
      as (_ & _ & _ & _ & _ & Hmatcher).
    apply (Hmatcher _ [("plain", plain_function); ("size", size_matcher);
                       ("missing", broken_matcher)]
             _ [("size", size_matcher)] "missing" broken_matcher []).
    + reflexivity.
    + reflexivity.
    + intros k m Hin. apply elem_of_cons in Hin as [Hin|Hin].
      * injection Hin as -> ->. by eexists.
      * by apply elem_of_nil in Hin.
    + reflexivity.
Defined.

(** ** The further properties at the small instance *)

Lemma createBlockWithFallback_whitespace_witness :
  createBlockWithFallback sample_innerHTML sample_createBlock sample_registry
    (Some "core/text") (" " +:+ "hello" +:+ "  ") (Some 0) [∅]
  = createBlockWithFallback sample_innerHTML sample_createBlock sample_registry
      (Some "core/text") "hello" (Some 0) [∅].
Proof.
  destruct (createBlockWithFallback_whitespace sample_innerHTML
              sample_createBlock sample_registry (Some "core/text") "hello"
              (Some 0) [∅]) as (Hpad & _).
  apply Hpad; reflexivity.
Defined.

Lemma registered_handler_keeps_content_witness :
  (∀ h', createBlockWithFallback sample_innerHTML sample_createBlock
           sample_registry (Some "core/gallery") " x " None []
         ≠ Ok (None, h'))
  ∧ List.length (filter (λ n, blank (rawContent n) = false) sample_nodes)
    ≤ List.length [(Some "core/text", 1)].
Proof.
  destruct (registered_handler_keeps_content sample_innerHTML
              sample_createBlock sample_registry freeform_type eq_refl)
    as (_ & Hnode & Hlist).
  split.
  - intros h'. by apply Hnode.
  - apply (Hlist (fixed_grammar sample_nodes) "document" [∅] sample_nodes [∅]
             [(Some "core/text", 1)] [∅; {[ "length" := 5; "align" := 0 ]}]);
      by vm_compute.
Defined.

Lemma parseWithGrammar_app_witness :
  parseWithGrammar sample_innerHTML sample_createBlock
    (fixed_grammar (sample_nodes ++ sample_nodes)) sample_registry
    "document" [∅]
  = match parseWithGrammar sample_innerHTML sample_createBlock
            (λ _ _, Ok (sample_nodes, [∅; {[ "length" := 5; "align" := 0 ]}]))
            sample_registry "document" [∅] with
    | Ok (bs2, h2) => Ok ([(Some "core/text", 1)] ++ bs2, h2)
    | Throw x => Throw x
    end.
Proof.
  destruct (parseWithGrammar_app sample_innerHTML sample_createBlock
              sample_registry (fixed_grammar (sample_nodes ++ sample_nodes))
              (fixed_grammar sample_nodes)
              (λ _ _, Ok (sample_nodes, [∅; {[ "length" := 5; "align" := 0 ]}]))
              "document" [∅] sample_nodes sample_nodes [∅] eq_refl eq_refl)
    as (_ & Happ).
  apply (Happ [(Some "core/text", 1)] [∅; {[ "length" := 5; "align" := 0 ]}]);
    by vm_compute.
Defined.

Lemma getBlockAttributes_fresh_per_call_witness :
  ∃ r2 h2,
    getBlockAttributes sample_innerHTML (Some text_type) "hello" (Some 0)
      [ {[ "id" := 3 ]}; {[ "length" := 5; "align" := 0; "id" := 3 ]} ]
    = Ok (r2, h2)
    ∧ 1 ≠ r2 ∧ is_Some (h2 !! 1) ∧ h2 !! 1 = h2 !! r2.
Proof.
  apply (getBlockAttributes_fresh_per_call sample_innerHTML text_type "hello"
           (Some 0) [ {[ "id" := 3 ]} ]).
  - intros l [= <-]. by eexists.
  - by vm_compute.
Defined.

Lemma getBlockAttributes_nothing_extracted_witness :
  ∃ r h' o,
    getBlockAttributes sample_innerHTML (Some freeform_type) "stray text"
      (Some 0) [ {[ "id" := 3 ]} ] = Ok (r, h')
    ∧ h' !! r = Some o
    ∧ o = {[ "id" := 3 ]}.
Proof.
  destruct (getBlockAttributes_nothing_extracted sample_innerHTML
              freeform_type "stray text" (Some 0) [ {[ "id" := 3 ]} ])
    as (r & h' & o & Hcall & Ho & _ & Hsame).
  - by left.
  - exists r, h', o. split; [exact Hcall|]. split; [exact Ho|].
    by apply Hsame.
Defined.

Lemma parseWithGrammar_frame_witness :
  [ (∅ : gmap string nat) ]
    `prefix_of` [∅; {[ "length" := 5; "align" := 0 ]}]
  ∧ ∀ n l o, n ∈ sample_nodes → attrs n = Some l →
             [ (∅ : gmap string nat) ] !! l = Some o →
             [∅; {[ "length" := 5; "align" := 0 ]}] !! l = Some o.
Proof.
  apply (parseWithGrammar_frame sample_innerHTML sample_createBlock
           sample_registry (fixed_grammar sample_nodes) "document" [∅]
           sample_nodes [∅] [(Some "core/text", 1)]).
  - intros bn a h1 b h2 [= _ <-]. done.
  - reflexivity.
  - by vm_compute.
Defined.

Lemma parseWithGrammar_without_suppressed_witness :
  parseWithGrammar sample_innerHTML sample_createBlock
    (fixed_grammar sample_nodes) sample_registry "document" [∅]
  = parseWithGrammar sample_innerHTML sample_createBlock
      (fixed_grammar (take 1 sample_nodes)) sample_registry "document" [∅].
Proof.
  apply (parseWithGrammar_without_suppressed sample_innerHTML
           sample_createBlock sample_registry (fixed_grammar sample_nodes)
           (fixed_grammar (take 1 sample_nodes)) "document" [∅]
           (take 1 sample_nodes) []
           {| blockType := None; rawContent := "  "; attrs := None |} [∅]);
    reflexivity.
Defined.

Lemma parseBlockAttributes_key_order_witness :
  parseBlockAttributes sample_innerHTML "<p>hi</p>"
    {| attributes := Matchers [("plain", plain_function);
                               ("size", size_matcher)];
       defaultAttributes := None |} = Ok {[ "size" := 9 ]}.
Proof.
  apply (parseBlockAttributes_key_order sample_innerHTML
           [("size", size_matcher); ("plain", plain_function)]
           [("plain", plain_function); ("size", size_matcher)]).
  - apply (bool_decide_unpack _). by vm_compute.
  - apply Permutation_swap.
  - reflexivity.
Defined.

Lemma createBlock_exception_propagates_witness :
  createBlockWithFallback sample_innerHTML failing_createBlock sample_registry
    (Some "core/text") "hello" None [] = Throw "invalid block"
  ∧ parseWithGrammar sample_innerHTML failing_createBlock
      (fixed_grammar [ {| blockType := Some "core/text"; rawContent := "hello";
                          attrs := None |} ])
      sample_registry "document" [] = Throw "invalid block".
Proof.
  destruct (createBlock_exception_propagates sample_innerHTML
              failing_createBlock sample_registry (Some "core/text") "hello"
              None [] (Some "core/text") text_type 1
              [∅; {[ "length" := 5; "align" := 0 ]}] "invalid block")
    as (Hnode & Hlist); try reflexivity.
  split; [exact Hnode|].
  apply (Hlist _ (fixed_grammar []) "document" [] [] [] [] []); reflexivity.
Defined.
